(** * OpenGSNExample: deployment scripts for the paymaster and the collection

    A shallow embedding of [scripts/paymaster.ts] and [scripts/collection.ts]:
    the record files the scripts write and read, the keys (paths) they are
    written at, the guards of [deploy] and [verify], and the loop around the
    [enableContract] transaction.

    What the scripts get from Node and Hardhat is modelled next to them:
    [path.join] (POSIX), [JSON.stringify (_, null, 2)] and [JSON.parse] on the
    values the scripts write, the file system as a finite map from paths to
    file contents, and the chain and the verification service as an oracle
    whose answers may depend on every call made before. *)

From Stdlib Require Import String Ascii ZArith List Lia Bool.
From Stdlib Require Import Decimal DecimalString DecimalFacts DecimalPos DecimalZ.
From stdpp Require Import gmap strings list.

#[local] Set Warnings "-register-all".

Local Open Scope string_scope.
Local Open Scope list_scope.

(** ** JavaScript strings *)

Module JsString.

(** [!s] for a string: the empty string is the only falsy one. *)
Definition falsy (s : string) : bool :=
  match s with EmptyString => true | String _ _ => false end.

(** [s.startsWith (p)]. *)
Fixpoint startsWith (p s : string) : bool :=
  match p, s with
  | EmptyString, _ => true
  | String a p', String b s' => if ascii_dec a b then startsWith p' s' else false
  | String _ _, EmptyString => false
  end.

(** [s.includes (p)]: [p] occurs in [s] at some position. *)
Fixpoint includes (p s : string) : bool :=
  startsWith p s ||
  match s with
  | EmptyString => false
  | String _ s' => includes p s'
  end.

(** The characters of [s] satisfy [f]. *)
Fixpoint all (f : ascii -> bool) (s : string) : bool :=
  match s with
  | EmptyString => true
  | String c s' => f c && all f s'
  end.

Definition is_char (a c : ascii) : bool := if ascii_dec a c then true else false.

(** No ["/"] in [s]. *)
Definition slash_free (s : string) : bool := all (fun c => negb (is_char "/" c)) s.

(** No ["."] in [s]. *)
Definition dot_free (s : string) : bool := all (fun c => negb (is_char "." c)) s.

(** Neither: what an address ([0x] and hex digits) and the usual network
    names are. *)
Definition plain (s : string) : bool := slash_free s && dot_free s.

End JsString.

(** ** [path.join] (Node, POSIX flavour) *)

Module Path.

(** [s.split ("/")]. *)
Fixpoint split (s : string) : list string :=
  match s with
  | EmptyString => [EmptyString]
  | String c s' =>
      if JsString.is_char "/" c then EmptyString :: split s'
      else match split s' with
           | seg :: rest => String c seg :: rest
           | [] => [String c EmptyString]
           end
  end.

(** [segs.join ("/")]. *)
Fixpoint unsplit (segs : list string) : string :=
  match segs with
  | [] => ""
  | [seg] => seg
  | seg :: rest => seg +:+ "/" +:+ unsplit rest
  end.

(** One segment of [normalizeString]: the segments kept so far are a stack,
    last segment first.  Empty segments and ["."] are dropped; [".."] drops
    the last kept segment, unless there is none or it is [".."] itself, when
    it is kept only if the path may climb above its root. *)
Definition normalize_step (allowAboveRoot : bool) (kept : list string) (seg : string)
  : list string :=
  if decide (seg = "") then kept
  else if decide (seg = ".") then kept
  else if decide (seg = "..") then
    match kept with
    | [] => if allowAboveRoot then [".."] else []
    | top :: below =>
        if decide (top = "..") then (if allowAboveRoot then ".." :: kept else kept)
        else below
    end
  else seg :: kept.

Definition normalizeString (path : string) (allowAboveRoot : bool) : string :=
  unsplit (rev (fold_left (normalize_step allowAboveRoot) (split path) [])).

Fixpoint endsWithSlash (s : string) : bool :=
  match s with
  | EmptyString => false
  | String c EmptyString => JsString.is_char "/" c
  | String _ s' => endsWithSlash s'
  end.

(** [path.normalize]. *)
Definition normalize (path : string) : string :=
  if JsString.falsy path then "."
  else
    let isAbsolute := JsString.startsWith "/" path in
    let trailingSeparator := endsWithSlash path in
    let p := normalizeString path (negb isAbsolute) in
    if JsString.falsy p then
      if isAbsolute then "/" else if trailingSeparator then "./" else "."
    else
      let p := if trailingSeparator then p +:+ "/" else p in
      if isAbsolute then "/" +:+ p else p.

(** [path.join (...args)]: the non-empty arguments joined by ["/"], then
    normalized; ["."] when nothing is left. *)
Definition join (args : list string) : string :=
  let joined := unsplit (List.filter (fun a => negb (JsString.falsy a)) args) in
  if JsString.falsy joined then "." else normalize joined.

(** What [unsplit] puts before the last segment. *)
Definition before_last (segs : list string) : string :=
  match segs with
  | [] => ""
  | _ :: _ => unsplit segs +:+ "/"
  end.

(** A name a file can have in a directory: no ["/"], and none of [""],
    ["."] and [".."]. *)
Definition file_name (f : string) : Prop :=
  JsString.slash_free f = true /\ f <> "" /\ f <> "." /\ f <> "..".

End Path.

(** ** JSON values, [JSON.stringify (v, null, 2)] and [JSON.parse]

    Text is a list of characters.  The model covers what the scripts write:
    [null], booleans, integers (a JavaScript number that is a safe integer),
    strings of one-byte characters, arrays and objects with their properties
    in insertion order.  A number with a fraction or an exponent and a
    [\u] escape above one byte are outside it: [parse] gives [None] there. *)

Module Json.

Inductive value : Type :=
| JNull
| JBool (b : bool)
| JNum (n : Z)
| JStr (s : string)
| JArr (items : list value)
| JObj (props : list (string * value)).

Definition chars (s : string) : list ascii := list_ascii_of_string s.

Definition nl : ascii := "010"%char.
Definition dquote : ascii := "034"%char.
Definition backslash : ascii := "092"%char.

Definition ch (a c : ascii) : bool := Ascii.eqb a c.

(** *** Printing *)

Definition hex_digit (n : nat) : ascii := nth n (chars "0123456789abcdef") "0"%char.

(** [QuoteJSONString], one character. *)
Definition escape_char (c : ascii) : list ascii :=
  let n := nat_of_ascii c in
  if ch dquote c then [backslash; dquote]
  else if ch backslash c then [backslash; backslash]
  else if Nat.eqb n 8 then [backslash; "b"%char]
  else if Nat.eqb n 9 then [backslash; "t"%char]
  else if Nat.eqb n 10 then [backslash; "n"%char]
  else if Nat.eqb n 12 then [backslash; "f"%char]
  else if Nat.eqb n 13 then [backslash; "r"%char]
  else if Nat.ltb n 32 then
    [backslash; "u"%char; "0"%char; "0"%char; hex_digit (n / 16); hex_digit (n mod 16)]
  else [c].

Definition quote (s : string) : list ascii :=
  dquote :: flat_map escape_char (chars s) ++ [dquote].

(** [Number::toString] of an integer. *)
Definition number_to_string (n : Z) : list ascii :=
  chars (DecimalString.NilZero.string_of_int (Z.to_int n)).

Definition spaces (n : nat) : list ascii := repeat " "%char n.

(** [SerializeJSONProperty] with a gap of two spaces; [indent] is the number
    of spaces of the current indentation.  The items of an array and the
    properties of an object are joined by a comma and a new line. *)
Fixpoint serialize (indent : nat) (v : value) : list ascii :=
  match v with
  | JNull => chars "null"
  | JBool true => chars "true"
  | JBool false => chars "false"
  | JNum n => number_to_string n
  | JStr s => quote s
  | JArr [] => chars "[]"
  | JArr (x :: xs) =>
      "["%char :: nl :: spaces (indent + 2) ++ serialize (indent + 2) x ++
      flat_map (fun y => ","%char :: nl :: spaces (indent + 2) ++ serialize (indent + 2) y) xs ++
      nl :: spaces indent ++ ["]"%char]
  | JObj [] => chars "{}"
  | JObj (p :: ps) =>
      "{"%char :: nl :: spaces (indent + 2) ++
      quote (fst p) ++ ":"%char :: " "%char :: serialize (indent + 2) (snd p) ++
      flat_map (fun q => ","%char :: nl :: spaces (indent + 2) ++
                         quote (fst q) ++ ":"%char :: " "%char :: serialize (indent + 2) (snd q)) ps ++
      nl :: spaces indent ++ ["}"%char]
  end.

(** [JSON.stringify (v, null, 2)]. *)
Definition stringify (v : value) : string := string_of_list_ascii (serialize 0 v).

(** *** Parsing *)

Definition is_ws (c : ascii) : bool :=
  ch " "%char c || ch nl c || ch "013"%char c || ch "009"%char c.

Fixpoint skip_ws (s : list ascii) : list ascii :=
  match s with
  | c :: r => if is_ws c then skip_ws r else s
  | [] => []
  end.

Definition is_digit (c : ascii) : bool :=
  let n := nat_of_ascii c in Nat.leb 48 n && Nat.leb n 57.

Fixpoint span_digits (s : list ascii) : list ascii * list ascii :=
  match s with
  | c :: r =>
      if is_digit c then let '(ds, rest) := span_digits r in (c :: ds, rest)
      else ([], s)
  | [] => ([], [])
  end.

(** What may not follow the digits of an integer. *)
Definition is_frac_or_exp (c : ascii) : bool :=
  ch "."%char c || ch "e"%char c || ch "E"%char c.

Definition digits_value (ds : list ascii) : option Decimal.uint :=
  DecimalString.NilEmpty.uint_of_string (string_of_list_ascii ds).

(** The digits of a JSON number: ["0"], or digits that do not start with
    ["0"]; no fraction and no exponent behind them. *)
Definition parse_unsigned (negative : bool) (s : list ascii) : option (Z * list ascii) :=
  let '(ds, rest) := span_digits s in
  match ds with
  | [] => None
  | d :: more =>
      if ch "0"%char d && negb (Nat.eqb (length more) 0) then None
      else if match rest with c :: _ => is_frac_or_exp c | [] => false end then None
      else
        match digits_value ds with
        | Some u => Some (Z.of_int (if negative then Decimal.Neg u else Decimal.Pos u), rest)
        | None => None
        end
  end.

(** A JSON number: an optional [-], then the digits. *)
Definition parse_number (s : list ascii) : option (Z * list ascii) :=
  match s with
  | c :: r => if ch "-"%char c then parse_unsigned true r else parse_unsigned false s
  | [] => None
  end.

Definition hex_value (c : ascii) : option nat :=
  let n := nat_of_ascii c in
  if is_digit c then Some (n - 48)
  else if Nat.leb 97 n && Nat.leb n 102 then Some (n - 87)
  else if Nat.leb 65 n && Nat.leb n 70 then Some (n - 55)
  else None.

(** The code unit of [\uXXXX], when it fits one byte. *)
Definition unicode_escape (h1 h2 h3 h4 : ascii) : option ascii :=
  match hex_value h1, hex_value h2, hex_value h3, hex_value h4 with
  | Some a, Some b, Some c, Some d =>
      if Nat.eqb a 0 && Nat.eqb b 0 then Some (ascii_of_nat (16 * c + d)) else None
  | _, _, _, _ => None
  end.

Definition simple_escape (e : ascii) : option ascii :=
  if ch dquote e then Some dquote
  else if ch backslash e then Some backslash
  else if ch "/"%char e then Some "/"%char
  else if ch "b"%char e then Some "008"%char
  else if ch "f"%char e then Some "012"%char
  else if ch "n"%char e then Some nl
  else if ch "r"%char e then Some "013"%char
  else if ch "t"%char e then Some "009"%char
  else None.

(** The characters of a string up to its closing quote. *)
Fixpoint parse_string (s : list ascii) : option (string * list ascii) :=
  match s with
  | [] => None
  | c :: r =>
      if ch dquote c then Some (EmptyString, r)
      else if ch backslash c then
        match r with
        | [] => None
        | e :: r1 =>
            if ch "u"%char e then
              match r1 with
              | h1 :: h2 :: h3 :: h4 :: r2 =>
                  match unicode_escape h1 h2 h3 h4 with
                  | Some x =>
                      match parse_string r2 with
                      | Some (str, rest) => Some (String x str, rest)
                      | None => None
                      end
                  | None => None
                  end
              | _ => None
              end
            else
              match simple_escape e with
              | Some x =>
                  match parse_string r1 with
                  | Some (str, rest) => Some (String x str, rest)
                  | None => None
                  end
              | None => None
              end
        end
      else if Nat.ltb (nat_of_ascii c) 32 then None
      else
        match parse_string r with
        | Some (str, rest) => Some (String c str, rest)
        | None => None
        end
  end.

Definition is_num_start (c : ascii) : bool := ch "-"%char c || is_digit c.

(** [s] starts with the characters of [word]; what follows them. *)
Fixpoint expect (word s : list ascii) : option (list ascii) :=
  match word, s with
  | [], _ => Some s
  | w :: word', c :: r => if ch w c then expect word' r else None
  | _ :: _, [] => None
  end.

(** The recursive-descent parser.  [fuel] bounds the nesting and the number
    of items; [parse] below gives it more than the text is long. *)
Fixpoint parse_value (fuel : nat) (s : list ascii) : option (value * list ascii) :=
  match fuel with
  | O => None
  | S fuel' =>
      match skip_ws s with
      | [] => None
      | c :: r =>
          if is_num_start c then
            match parse_number (c :: r) with
            | Some (n, rest) => Some (JNum n, rest)
            | None => None
            end
          else if ch dquote c then
            match parse_string r with
            | Some (str, rest) => Some (JStr str, rest)
            | None => None
            end
          else if ch "["%char c then
            match skip_ws r with
            | c' :: r' =>
                if ch "]"%char c' then Some (JArr [], r')
                else
                  match parse_items fuel' r with
                  | Some (l, rest) => Some (JArr l, rest)
                  | None => None
                  end
            | [] => None
            end
          else if ch "{"%char c then
            match skip_ws r with
            | c' :: r' =>
                if ch "}"%char c' then Some (JObj [], r')
                else
                  match parse_members fuel' r with
                  | Some (l, rest) => Some (JObj l, rest)
                  | None => None
                  end
            | [] => None
            end
          else if ch "n"%char c then
            match expect (chars "ull") r with Some rest => Some (JNull, rest) | None => None end
          else if ch "t"%char c then
            match expect (chars "rue") r with Some rest => Some (JBool true, rest) | None => None end
          else if ch "f"%char c then
            match expect (chars "alse") r with Some rest => Some (JBool false, rest) | None => None end
          else None
      end
  end
with parse_items (fuel : nat) (s : list ascii) : option (list value * list ascii) :=
  match fuel with
  | O => None
  | S fuel' =>
      match parse_value fuel' s with
      | Some (v, r) =>
          match skip_ws r with
          | c :: r' =>
              if ch ","%char c then
                match parse_items fuel' r' with
                | Some (l, rest) => Some (v :: l, rest)
                | None => None
                end
              else if ch "]"%char c then Some ([v], r')
              else None
          | [] => None
          end
      | None => None
      end
  end
with parse_members (fuel : nat) (s : list ascii)
  : option (list (string * value) * list ascii) :=
  match fuel with
  | O => None
  | S fuel' =>
      match skip_ws s with
      | q :: r0 =>
          if ch dquote q then
            match parse_string r0 with
            | Some (k, r1) =>
                match skip_ws r1 with
                | colon :: r2 =>
                    if ch ":"%char colon then
                      match parse_value fuel' r2 with
                      | Some (v, r3) =>
                          match skip_ws r3 with
                          | c :: r4 =>
                              if ch ","%char c then
                                match parse_members fuel' r4 with
                                | Some (l, rest) => Some ((k, v) :: l, rest)
                                | None => None
                                end
                              else if ch "}"%char c then Some ([(k, v)], r4)
                              else None
                          | [] => None
                          end
                      | None => None
                      end
                    else None
                | [] => None
                end
            | None => None
            end
          else None
      | [] => None
      end
  end.

(** [rest] can follow the digits of an integer: it starts with no digit,
    fraction or exponent. *)
Definition ends_number (rest : list ascii) : bool :=
  match rest with
  | [] => true
  | c :: _ => negb (is_digit c) && negb (is_frac_or_exp c)
  end.

(** The nodes of a value, its items and properties counted once more: the
    fuel [parse_value] needs for its text. *)
Fixpoint size (v : value) : nat :=
  match v with
  | JArr items => S (list_sum (map (fun x => S (size x)) items))
  | JObj props => S (list_sum (map (fun p => S (size (snd p))) props))
  | _ => 1
  end.

Definition items_size (items : list value) : nat :=
  list_sum (map (fun x => S (size x)) items).
Definition props_size (props : list (string * value)) : nat :=
  list_sum (map (fun p => S (size (snd p))) props).

(** A further item of an array, a further property of an object, as
    [serialize] writes them at indentation [i]. *)
Definition item_text (i : nat) (y : value) : list ascii :=
  ","%char :: nl :: spaces i ++ serialize i y.
Definition prop_text (i : nat) (q : string * value) : list ascii :=
  ","%char :: nl :: spaces i ++ quote (fst q) ++ ":"%char :: " "%char :: serialize i (snd q).

(** [JSON.parse (text)]: one value, then nothing but white space; [None]
    is the [SyntaxError]. *)
Definition parse (text : string) : option value :=
  let s := chars text in
  match parse_value (S (length s)) s with
  | Some (v, r) => match skip_ws r with [] => Some v | _ :: _ => None end
  | None => None
  end.

(** *** The grammar in full

    [accepts] tells whether a text is JSON at all.  It follows the grammar
    of [JSON.parse] in full, the numbers with a fraction or an exponent and
    every [\u] escape included, in the steps of [parse_value], and builds no
    value: where it gives [false], [JSON.parse] throws its [SyntaxError]. *)

(** One digit or more. *)
Definition skip_digits1 (s : list ascii) : option (list ascii) :=
  match span_digits s with
  | ([], _) => None
  | (_ :: _, rest) => Some rest
  end.

(** An optional fraction: [.] and digits. *)
Definition skip_fraction (s : list ascii) : option (list ascii) :=
  match s with
  | c :: r => if ch "."%char c then skip_digits1 r else Some s
  | [] => Some s
  end.

(** An optional exponent: [e] or [E], an optional sign, digits. *)
Definition skip_exponent (s : list ascii) : option (list ascii) :=
  match s with
  | c :: r =>
      if ch "e"%char c || ch "E"%char c then
        match r with
        | sign :: r' =>
            if ch "+"%char sign || ch "-"%char sign then skip_digits1 r'
            else skip_digits1 r
        | [] => None
        end
      else Some s
  | [] => Some s
  end.

(** The digits of a number, ["0"] or digits that do not start with ["0"],
    then the fraction and the exponent. *)
Definition skip_unsigned (s : list ascii) : option (list ascii) :=
  let '(ds, rest) := span_digits s in
  match ds with
  | [] => None
  | d :: more =>
      if ch "0"%char d && negb (Nat.eqb (length more) 0) then None
      else
        match skip_fraction rest with
        | Some r1 => skip_exponent r1
        | None => None
        end
  end.

Definition skip_number (s : list ascii) : option (list ascii) :=
  match s with
  | c :: r => if ch "-"%char c then skip_unsigned r else skip_unsigned s
  | [] => None
  end.

(** The characters of a string up to its closing quote, with every escape
    of the grammar. *)
Fixpoint skip_string (s : list ascii) : option (list ascii) :=
  match s with
  | [] => None
  | c :: r =>
      if ch dquote c then Some r
      else if ch backslash c then
        match r with
        | [] => None
        | e :: r1 =>
            if ch "u"%char e then
              match r1 with
              | h1 :: h2 :: h3 :: h4 :: r2 =>
                  match hex_value h1, hex_value h2, hex_value h3, hex_value h4 with
                  | Some _, Some _, Some _, Some _ => skip_string r2
                  | _, _, _, _ => None
                  end
              | _ => None
              end
            else
              match simple_escape e with
              | Some _ => skip_string r1
              | None => None
              end
        end
      else if Nat.ltb (nat_of_ascii c) 32 then None
      else skip_string r
  end.

Fixpoint skip_value (fuel : nat) (s : list ascii) : option (list ascii) :=
  match fuel with
  | O => None
  | S fuel' =>
      match skip_ws s with
      | [] => None
      | c :: r =>
          if is_num_start c then skip_number (c :: r)
          else if ch dquote c then skip_string r
          else if ch "["%char c then
            match skip_ws r with
            | c' :: r' => if ch "]"%char c' then Some r' else skip_items fuel' r
            | [] => None
            end
          else if ch "{"%char c then
            match skip_ws r with
            | c' :: r' => if ch "}"%char c' then Some r' else skip_members fuel' r
            | [] => None
            end
          else if ch "n"%char c then expect (chars "ull") r
          else if ch "t"%char c then expect (chars "rue") r
          else if ch "f"%char c then expect (chars "alse") r
          else None
      end
  end
with skip_items (fuel : nat) (s : list ascii) : option (list ascii) :=
  match fuel with
  | O => None
  | S fuel' =>
      match skip_value fuel' s with
      | Some r =>
          match skip_ws r with
          | c :: r' =>
              if ch ","%char c then skip_items fuel' r'
              else if ch "]"%char c then Some r'
              else None
          | [] => None
          end
      | None => None
      end
  end
with skip_members (fuel : nat) (s : list ascii) : option (list ascii) :=
  match fuel with
  | O => None
  | S fuel' =>
      match skip_ws s with
      | q :: r0 =>
          if ch dquote q then
            match skip_string r0 with
            | Some r1 =>
                match skip_ws r1 with
                | colon :: r2 =>
                    if ch ":"%char colon then
                      match skip_value fuel' r2 with
                      | Some r3 =>
                          match skip_ws r3 with
                          | c :: r4 =>
                              if ch ","%char c then skip_members fuel' r4
                              else if ch "}"%char c then Some r4
                              else None
                          | [] => None
                          end
                      | None => None
                      end
                    else None
                | [] => None
                end
            | None => None
            end
          else None
      | [] => None
      end
  end.

(** The text is one value of the grammar between white space. *)
Definition accepts (text : string) : bool :=
  let s := chars text in
  match skip_value (S (length s)) s with
  | Some r => match skip_ws r with [] => true | _ :: _ => false end
  | None => false
  end.

(** *** Reading parsed values as the scripts do *)

(** [obj[key]] on the properties of an object: the last one of that name
    wins, as in the object [JSON.parse] builds. *)
Fixpoint lookup_prop (key : string) (props : list (string * value)) : option value :=
  match props with
  | [] => None
  | (k, v) :: rest =>
      match lookup_prop key rest with
      | Some v' => Some v'
      | None => if decide (k = key) then Some v else None
      end
  end.

(** [!v], where [None] is [undefined]. *)
Definition falsy (v : option value) : bool :=
  match v with
  | None => true
  | Some JNull => true
  | Some (JBool b) => negb b
  | Some (JNum n) => Z.eqb n 0
  | Some (JStr s) => JsString.falsy s
  | Some (JArr _) => false
  | Some (JObj _) => false
  end.

End Json.

(** ** The runtime: errors, the file system, the chain, the monad *)

Module Js.

(** A thrown [Error] object: its [name] and its [message].  The messages of
    the errors Node and the engine throw themselves are stand-ins. *)
Record Error : Type := mkError { name : string; message : string }.

Definition error (msg : string) : Error := mkError "Error" msg.
Definition typeError (msg : string) : Error := mkError "TypeError" msg.
Definition syntaxError : Error := mkError "SyntaxError" "Unexpected token in JSON".
Definition enoent (path : string) : Error :=
  mkError "Error" ("ENOENT: no such file or directory, open '" +:+ path +:+ "'").

(** A JavaScript value read from a record file; [None] is [undefined]. *)
Definition jsval : Type := option Json.value.

(** A request to the chain-interaction provider ([hre.ethers], a contract
    handle) or to the verification service ([hre.run ("verify:verify")]). *)
Inductive call : Type :=
| GetContractFactory (contract : string)
| ContractDeploy (contract : string) (args : list Json.value)
| Deployed (address : string)
| GetSigners
| EnableContract (paymaster : Json.value) (target : string)
| TxWait (paymaster : Json.value) (target : string)
| RunVerify (address constructorArguments : jsval).

(** What the run did outside the process, oldest first.  Console output is
    not recorded. *)
Inductive event : Type :=
| Called (c : call)
| Slept (ms : Z).

Inductive answer : Type :=
| Fails (e : Error)
| Gives (v : string).

Record PaymasterInfo : Type :=
  { RELAY_HUB_ADDRESS : string; GSN_TRUSTED_FORWARDER_ADDRESS : string }.

(** The parts of the Hardhat runtime environment the scripts use:
    [hre.network.name], [hre.config.paymasterInfo] and, as an oracle over
    the events so far, the answers of [hre.ethers] and [hre.run]. *)
Record HardhatRuntimeEnvironment : Type :=
  { network_name : string;
    paymasterInfo : gmap string PaymasterInfo;
    provider : list event -> call -> answer }.

Record world : Type :=
  { fs : gmap string string;   (* path |-> content *)
    events : list event }.

Inductive outcome (A : Type) : Type :=
| Returned (a : A)
| Thrown (e : Error).
Arguments Returned {A} a.
Arguments Thrown {A} e.

Definition M (A : Type) : Type := world -> outcome A * world.

Definition ret {A} (a : A) : M A := fun w => (Returned a, w).
Definition throw {A} (e : Error) : M A := fun w => (Thrown e, w).
Definition bind {A B} (m : M A) (k : A -> M B) : M B :=
  fun w => match m w with
           | (Returned a, w') => k a w'
           | (Thrown e, w') => (Thrown e, w')
           end.
(** [try { m } catch (e) { handler e }]. *)
Definition try_catch {A} (m : M A) (handler : Error -> M A) : M A :=
  fun w => match m w with
           | (Returned a, w') => (Returned a, w')
           | (Thrown e, w') => handler e w'
           end.

Definition record_event (e : event) (w : world) : world :=
  {| fs := fs w; events := events w ++ [e] |}.

(** [await] of a request: the provider answers from the history. *)
Definition external (hre : HardhatRuntimeEnvironment) (c : call) : M string :=
  fun w => match provider hre (events w) c with
           | Gives v => (Returned v, record_event (Called c) w)
           | Fails e => (Thrown e, record_event (Called c) w)
           end.

(** [await new Promise ((resolve) => setTimeout (resolve, ms))]. *)
Definition sleep (ms : Z) : M unit :=
  fun w => (Returned tt, record_event (Slept ms) w).

Definition existsSync (path : string) : M bool :=
  fun w => (Returned (match fs w !! path with Some _ => true | None => false end), w).

Definition readFileSync (path : string) : M string :=
  fun w => match fs w !! path with
           | Some content => (Returned content, w)
           | None => (Thrown (enoent path), w)
           end.

(** [writeFileSync (path, content)]; the directory is taken to exist and to
    be writable.  For the keys of the scripts this is the directory above
    the scripts as long as the names in the key hold no ["/"]; a name with a
    ["/"] points into a directory that need not be there, where Node throws
    [ENOENT] and the model does not. *)
Definition writeFileSync (path content : string) : M unit :=
  fun w => (Returned tt, {| fs := <[path := content]> (fs w); events := events w |}).

(** [JSON.parse (text)], on the JSON of the model.  A text that
    [Json.accepts] takes and [Json.parse] does not (a number with a fraction
    or an exponent, a character above one byte) is outside the model: what
    is said of the [SyntaxError] is said for texts [Json.accepts] refuses. *)
Definition JSON_parse (text : string) : M Json.value :=
  match Json.parse text with
  | Some v => ret v
  | None => throw syntaxError
  end.

(** [v.key] for a parsed value that is not [null]: the property of an
    object, [undefined] on the other values (no script reads [length]). *)
Definition property (v : Json.value) (key : string) : jsval :=
  match v with
  | Json.JObj props => Json.lookup_prop key props
  | _ => None
  end.

Definition null_property (key : string) : Error :=
  typeError ("Cannot read properties of null (reading '" +:+ key +:+ "')").

(** [v.key] for a parsed value: a [TypeError] on [null]. *)
Definition get_property (v : Json.value) (key : string) : M jsval :=
  match v with
  | Json.JNull => throw (null_property key)
  | _ => ret (property v key)
  end.

(** The values an array pattern [[a, b, ...] = v] draws from: the items of
    an array, the characters of a string; other values are not iterable. *)
Definition iterate (v : jsval) : M (list Json.value) :=
  match v with
  | Some (Json.JArr items) => ret items
  | Some (Json.JStr s) =>
      ret (map (fun c => Json.JStr (String c EmptyString)) (Json.chars s))
  | _ => throw (typeError "constructorArguments is not iterable")
  end.

(** [for (let c = start; c < limit; c++) body (c)], for a body that neither
    assigns [c] nor breaks. *)
Fixpoint for_range (iterations c : nat) (body : nat -> M unit) : M unit :=
  match iterations with
  | O => ret tt
  | S k => bind (body c) (fun _ => for_range k (S c) body)
  end.
Definition for_upto (start limit : nat) (body : nat -> M unit) : M unit :=
  for_range (limit - start) start body.

(** [[a, b, ...]] built from values the script has just found truthy. *)
Definition array_literal (items : list jsval) : Json.value :=
  Json.JArr (map (default Json.JNull) items).

(** [m] leaves every file as it is, however it ends. *)
Definition keeps_fs {A} (m : M A) : Prop := forall w, fs (snd (m w)) = fs w.

(** [m] talks to nobody and writes nothing: the world is as before. *)
Definition silent {A} (m : M A) : Prop := forall w, snd (m w) = w.

(** The sleeps among the events, in order. *)
Fixpoint sleeps (evs : list event) : list Z :=
  match evs with
  | [] => []
  | Slept ms :: rest => ms :: sleeps rest
  | Called _ :: rest => sleeps rest
  end.

(** The calls of [enableContract] among the events. *)
Fixpoint enable_calls (evs : list event) : nat :=
  match evs with
  | [] => 0
  | Called (EnableContract _ _) :: rest => S (enable_calls rest)
  | _ :: rest => enable_calls rest
  end.

(** A contract handle ([ethers.Contract]): the scripts read its [address]. *)
Record Contract : Type := { address : Json.value }.

(** [contract.connect (signer)] keeps the address. *)
Definition connect (c : Contract) (signer : string) : Contract := c.

End Js.

Notation "'let*' x ':=' m 'in' k" := (Js.bind m (fun x => k))
  (at level 10, x name, m at level 100, k at level 200, only parsing).
Notation "m ';;' k" := (Js.bind m (fun _ => k))
  (at level 100, k at level 200, right associativity, only parsing).

(** ** scripts/paymaster.ts *)

Module Paymaster.
Section Script.

Import Js.

(** [__dirname] of the compiled script. *)
Variable dirname : string.
Variable hre : HardhatRuntimeEnvironment.

(** What [deploy] returns and the task writes: the address and the
    [PaymasterConstructorArguments]. *)
Record Output : Type :=
  { out_address : string;
    out_constructorArguments : string * string }.

Definition deploy (RELAY_HUB_ADDRESS GSN_TRUSTED_FORWARDER_ADDRESS : string) : M Output :=
  (* [if (!hre)]: [hre] is an object here. *)
  if JsString.falsy RELAY_HUB_ADDRESS then throw (error "Relay hub address is required")
  else if JsString.falsy GSN_TRUSTED_FORWARDER_ADDRESS then
    throw (error "GSN trusted forwarder address is required")
  else
    external hre (GetContractFactory "NovelPaymaster") ;;
    let* address :=
      external hre (ContractDeploy "NovelPaymaster"
                      [Json.JStr RELAY_HUB_ADDRESS; Json.JStr GSN_TRUSTED_FORWARDER_ADDRESS]) in
    external hre (Deployed address) ;;
    ret {| out_address := address;
           out_constructorArguments := (RELAY_HUB_ADDRESS, GSN_TRUSTED_FORWARDER_ADDRESS) |}.

Definition getPath : string :=
  Path.join [dirname; ".."; "paymaster." +:+ network_name hre +:+ ".json"].

(** The two errors [get] throws for the record file. *)
Definition not_found : Error :=
  error "Could not find paymaster.json - try running hardhat deploy-paymaster".
Definition corrupt : Error :=
  error "Could not read paymaster.json - try running hardhat deploy-paymaster".

Definition get (address : option string) : M Contract :=
  let address : jsval := Json.JStr <$> address in
  let* address :=
    if Json.falsy address then
      let path := getPath in
      let* found := existsSync path in
      if negb found then
        throw not_found
      else
        let* json := readFileSync path in
        let* obj := JSON_parse json in
        let* obj_address := get_property obj "address" in
        if Json.falsy obj_address then
          throw corrupt
        else ret obj_address
    else ret address in
  match address with
  | Some a =>
      if Json.falsy address then throw (error "Paymaster address is required")
      else (* NovelPaymaster__factory.connect (address, provider) *)
        ret {| Js.address := a |}
  | None => throw (error "Paymaster address is required")
  end.

(** [verify (hre, address, constructorArguments)]; the tasks pass what they
    read from a record file, so the arguments are JavaScript values. *)
Definition verify (address constructorArguments : jsval) : M unit :=
  let* items := iterate constructorArguments in
  let RELAY_HUB_ADDRESS := nth_error items 0 in
  let GSN_TRUSTED_FORWARDER_ADDRESS := nth_error items 1 in
  if Json.falsy RELAY_HUB_ADDRESS then throw (error "Relay hub address is required")
  else if Json.falsy GSN_TRUSTED_FORWARDER_ADDRESS then
    throw (error "GSN trusted forwarder address is required")
  else
    try_catch
      (external hre (RunVerify address constructorArguments) ;;
       ret tt)
      (fun e =>
         if JsString.includes "Reason: Already Verified" (message e) then ret tt
         else throw e).

(** The object [deploy] returns, as [JSON.stringify] sees it. *)
Definition output_json (o : Output) : Json.value :=
  Json.JObj
    [("address", Json.JStr (out_address o));
     ("constructorArguments",
      Json.JArr [Json.JStr (fst (out_constructorArguments o));
                 Json.JStr (snd (out_constructorArguments o))])].

(** [config.paymasterInfo[hre.network.name]], read for one of its fields. *)
Definition network_info : M PaymasterInfo :=
  match paymasterInfo hre !! network_name hre with
  | Some info => ret info
  | None => throw (typeError "Cannot read properties of undefined")
  end.

(** The action of the task [deploy-paymaster]. *)
Definition deploy_paymaster (doVerify : bool) : M unit :=
  let* info := network_info in
  let* output := deploy (RELAY_HUB_ADDRESS info) (GSN_TRUSTED_FORWARDER_ADDRESS info) in
  let path := getPath in
  writeFileSync path (Json.stringify (output_json output)) ;;
  if doVerify then
    try_catch
      (verify (Some (Json.JStr (out_address output)))
              (Some (Json.JArr [Json.JStr (fst (out_constructorArguments output));
                                Json.JStr (snd (out_constructorArguments output))])))
      (fun e => (* console.warn *) ret tt)
  else ret tt.

End Script.
End Paymaster.

(** ** scripts/collection.ts *)

Module Collection.
Section Script.

Import Js.

Variable dirname : string.
Variable hre : HardhatRuntimeEnvironment.

Definition getPath (collectionSymbol address : string) : string :=
  Path.join [dirname; "..";
             "collection." +:+ collectionSymbol +:+ "." +:+ address +:+ "."
               +:+ network_name hre +:+ ".json"].

(** The second argument of [deploy].  [collectionSupplyCap] is a number; the
    contract factory takes it for a [uint256] and accepts safe integers
    only, and these are the numbers modelled. *)
Record DeployArgs : Type :=
  { collectionName : string;
    collectionSymbol : string;
    collectionSupplyCap : Z;
    contractMetadataUri : string;
    (* optional *)
    metadataProofHash : option string;
    paymaster : option Contract;
    forwarderAddress : option string }.

(** [outputObj]. *)
Definition outputObj (address collectionName collectionSymbol : string)
    (collectionSupplyCap : Z)
    (metadataProofHash contractMetadataUri forwarderAddress : string) : Json.value :=
  Json.JObj
    [("address", Json.JStr address);
     ("collectionName", Json.JStr collectionName);
     ("collectionSymbol", Json.JStr collectionSymbol);
     ("collectionSupplyCap", Json.JNum collectionSupplyCap);
     ("metadataProofHash", Json.JStr metadataProofHash);
     ("contractMetadataUri", Json.JStr contractMetadataUri);
     ("forwarderAddress", Json.JStr forwarderAddress);
     ("constructorArguments",
      Json.JArr [Json.JStr collectionName;
                 Json.JStr collectionSymbol;
                 Json.JNum collectionSupplyCap;
                 Json.JStr metadataProofHash;
                 Json.JStr contractMetadataUri;
                 Json.JStr forwarderAddress])].

(** The loop of [deploy] around [paymaster.enableContract], with its two
    literals named: [for (let c = 1; c < limit; c++)] and
    [if (c === giveUpAt) throw e]. *)
Definition enable_loop (limit giveUpAt : nat) (paymaster : Contract) (target : string)
  : M unit :=
  for_upto 1 limit (fun c =>
    try_catch
      (external hre (EnableContract (address paymaster) target) ;;
       external hre (TxWait (address paymaster) target) ;;
       ret tt)
      (fun e =>
         if Nat.eqb c giveUpAt then throw e
         else sleep (Z.of_nat c * 1000))).

(** [deploy], up to [await novelCollection.deployed ()]: the guards, the
    paymaster, the forwarder and the creation of the contract.  It gives the
    paymaster, [forwarderAddress] and [novelCollection.address]. *)
Definition create (args : DeployArgs) : M (Contract * string * string) :=
  let metadataProofHash := default "" (metadataProofHash args) in
  (* [if (!hre)]: [hre] is an object here. *)
  if JsString.falsy (collectionSymbol args) then throw (error "collectionSymbol is required")
  else if Z.eqb (collectionSupplyCap args) 0 then throw (error "collectionSupplyCap is required")
  else if JsString.falsy (contractMetadataUri args) then
    throw (error "contractMetadataUri is required")
  else
    let* paymaster :=
      match paymaster args with
      | Some p => ret p
      | None =>
          let* p := Paymaster.get dirname hre None in
          let* signer := external hre GetSigners in
          ret (connect p signer)
      end in
    let* forwarderAddress :=
      if Json.falsy (Json.JStr <$> forwarderAddress args) then
        let* info := Paymaster.network_info hre in
        ret (GSN_TRUSTED_FORWARDER_ADDRESS info)
      else ret (default "" (forwarderAddress args)) in
    external hre (GetContractFactory "NovelCollection") ;;
    let* novelCollection :=
      external hre
        (ContractDeploy "NovelCollection"
           [Json.JStr (collectionName args);
            Json.JStr (collectionSymbol args);
            Json.JNum (collectionSupplyCap args);
            Json.JStr metadataProofHash;
            Json.JStr (contractMetadataUri args);
            Json.JStr forwarderAddress]) in
    external hre (Deployed novelCollection) ;;
    ret (paymaster, forwarderAddress, novelCollection).

(** [outputObj] of a deployment. *)
Definition record_of (args : DeployArgs) (forwarderAddress novelCollection : string)
  : Json.value :=
  outputObj novelCollection (collectionName args) (collectionSymbol args)
    (collectionSupplyCap args) (default "" (metadataProofHash args))
    (contractMetadataUri args) forwarderAddress.

(** [deploy], from [outputObj] on: the record is written, then the
    collection is enabled on the paymaster. *)
Definition record_and_enable (limit giveUpAt : nat) (args : DeployArgs)
    (created : Contract * string * string) : M (string * string) :=
  let '(paymaster, forwarderAddress, novelCollection) := created in
  let path := getPath (collectionSymbol args) novelCollection in
  writeFileSync path (Json.stringify (record_of args forwarderAddress novelCollection)) ;;
  enable_loop limit giveUpAt paymaster novelCollection ;;
  ret (path, novelCollection).

Definition deploy_with (limit giveUpAt : nat) (args : DeployArgs) : M (string * string) :=
  let* created := create args in
  record_and_enable limit giveUpAt args created.

(** [deploy]: the loop is [for (let c = 1; c < 2; c++)] and gives up at
    [c === 5]. *)
Definition deploy : DeployArgs -> M (string * string) := deploy_with 2 5.

(** [verify (hre, address, [collectionName, ..., forwarderAddress])]; the
    tasks pass what they read from a record file. *)
Definition verify (address constructorArguments : jsval) : M unit :=
  let* items := iterate constructorArguments in
  let collectionName := nth_error items 0 in
  let collectionSymbol := nth_error items 1 in
  let collectionSupplyCap := nth_error items 2 in
  let metadataProofHash := nth_error items 3 in
  let contractMetadataUri := nth_error items 4 in
  let forwarderAddress := nth_error items 5 in
  if Json.falsy address then throw (error "address is required")
  else if Json.falsy collectionSymbol then throw (error "collectionSymbol is required")
  else if Json.falsy collectionSupplyCap then throw (error "collectionSupplyCap is required")
  else if Json.falsy contractMetadataUri then throw (error "contractMetadataUri is required")
  else if Json.falsy forwarderAddress then throw (error "forwarderAddress is required")
  else if Json.falsy collectionName then throw (error "collectionName is required")
  else if Json.falsy metadataProofHash then throw (error "metadataProofHash is required")
  else
    external hre
      (RunVerify address
         (Some (array_literal [collectionName; collectionSymbol; collectionSupplyCap;
                               metadataProofHash; contractMetadataUri; forwarderAddress]))) ;;
    ret tt.

(** [const { address, constructorArguments } =
      JSON.parse (readFileSync (path, { encoding: "utf8" }))]. *)
Definition load (path : string) : M (jsval * jsval) :=
  let* text := readFileSync path in
  let* obj := JSON_parse text in
  let* address := get_property obj "address" in
  let* constructorArguments := get_property obj "constructorArguments" in
  ret (address, constructorArguments).

(** The action of the task [verify-collection]. *)
Definition verify_collection (path : string) : M unit :=
  let* record := load path in
  verify (fst record) (snd record).

(** The action of the task [deploy-collection], from the call of [deploy]
    on; [collectionSupplyCap] is what [parseInt] gave. *)
Definition deploy_collection (collectionSymbol : string) (collectionSupplyCap : Z)
    (collectionName contractMetadataUri : string) (doVerify : bool) : M unit :=
  let* deployed :=
    deploy {| collectionName := collectionName;
              collectionSymbol := collectionSymbol;
              collectionSupplyCap := collectionSupplyCap;
              contractMetadataUri := contractMetadataUri;
              metadataProofHash := None;
              paymaster := None;
              forwarderAddress := None |} in
  let path := fst deployed in
  if doVerify then
    let* record := load path in
    try_catch (verify (fst record) (snd record))
              (fun e => (* console.warn *) ret tt)
  else ret tt.

End Script.
End Collection.

(** ** Runs used below: providers, environments, worlds *)

Module Scenario.

Import Js.

Definition scripts : string := "/repo/scripts".

Definition goerli_info : gmap string PaymasterInfo :=
  {[ "goerli" := {| RELAY_HUB_ADDRESS := "0xHub";
                    GSN_TRUSTED_FORWARDER_ADDRESS := "0xForwarder" |} ]}.

Definition empty_world : world := {| fs := ∅; events := [] |}.

Definition deployed_before (evs : list event) : bool :=
  existsb (fun e => match e with Called (ContractDeploy _ _) => true | _ => false end) evs.

(** A chain that creates the first contract at [0xAAA] and every later one
    at [0xBBB], and answers every other request. *)
Definition two_addresses : list event -> call -> answer :=
  fun evs c =>
    match c with
    | ContractDeploy _ _ => Gives (if deployed_before evs then "0xBBB" else "0xAAA")
    | _ => Gives ""
    end.

(** A chain that creates every contract at [address], answers every request
    but [enableContract], which fails each time. *)
Definition enable_fails (address : string) : list event -> call -> answer :=
  fun evs c =>
    match c with
    | ContractDeploy _ _ => Gives address
    | EnableContract _ _ => Fails (error "network timeout")
    | _ => Gives ""
    end.

(** A service that has verified the contract already. *)
Definition already_verified : list event -> call -> answer :=
  fun evs c =>
    match c with
    | ContractDeploy _ _ => Gives "0xABC"
    | RunVerify _ _ =>
        Fails (error "Contract source code already verified. Reason: Already Verified")
    | _ => Gives ""
    end.

Definition goerli (p : list event -> call -> answer) : HardhatRuntimeEnvironment :=
  {| network_name := "goerli"; paymasterInfo := goerli_info; provider := p |}.

Definition a_paymaster : Contract := {| address := Json.JStr "0xPaymaster" |}.

(** The deployment of the spec's scenario. *)
Definition sym_args (name : string) (hash : option string) : Collection.DeployArgs :=
  {| Collection.collectionName := name;
     Collection.collectionSymbol := "SYM";
     Collection.collectionSupplyCap := 1000;
     Collection.contractMetadataUri := "uri";
     Collection.metadataProofHash := hash;
     Collection.paymaster := Some a_paymaster;
     Collection.forwarderAddress := Some "0xForwarder" |}.

(** A world whose only file is the paymaster's record on goerli, with
    [text] in it. *)
Definition paymaster_file (text : string) : world :=
  {| fs := {[ "/repo/paymaster.goerli.json" := text ]}; events := [] |}.

End Scenario.

(** ** [parseInt] *)

Module JsNumber.

(** [StrWhiteSpaceChar], the ones among the characters of the model (code
    units below 256): tab, line feed, vertical tab, form feed, carriage
    return, space and the no-break space U+00A0. *)
Definition is_space (c : ascii) : bool :=
  let n := nat_of_ascii c in
  (Nat.leb 9 n && Nat.leb n 13) || Nat.eqb n 32 || Nat.eqb n 160.

Fixpoint trim_start (s : list ascii) : list ascii :=
  match s with
  | c :: r => if is_space c then trim_start r else s
  | [] => []
  end.

(** The hexadecimal digits [s] starts with, as numbers. *)
Fixpoint hex_prefix (s : list ascii) : list nat :=
  match s with
  | c :: r =>
      match Json.hex_value c with
      | Some d => d :: hex_prefix r
      | None => []
      end
  | [] => []
  end.

Definition hex_number (ds : list nat) : Z :=
  fold_left (fun acc d => (16 * acc + Z.of_nat d)%Z) ds 0%Z.

(** The digits of [parseInt]: after [0x] or [0X] the hexadecimal digits,
    else the decimal ones; [None] ([NaN]) when there is none. *)
Definition parse_magnitude (s : list ascii) : option Z :=
  match s with
  | c0 :: x :: r =>
      if Json.ch "0"%char c0 && (Json.ch "x"%char x || Json.ch "X"%char x) then
        match hex_prefix r with
        | [] => None
        | ds => Some (hex_number ds)
        end
      else
        match fst (Json.span_digits s) with
        | [] => None
        | ds => Z.of_uint <$> Json.digits_value ds
        end
  | _ =>
      match fst (Json.span_digits s) with
      | [] => None
      | ds => Z.of_uint <$> Json.digits_value ds
      end
  end.

(** [parseInt (s)], on integers; [None] is [NaN].  Leading white space is
    skipped, a sign is read, and what follows the digits is ignored.  The
    result is the number JavaScript gives as long as it is a safe integer
    (at most [2^53 - 1] in absolute value); above, JavaScript rounds. *)
Definition parseInt (s : string) : option Z :=
  match trim_start (Json.chars s) with
  | c :: r =>
      if Json.ch "-"%char c then Z.opp <$> parse_magnitude r
      else if Json.ch "+"%char c then parse_magnitude r
      else parse_magnitude (c :: r)
  | [] => None
  end.

(** [Number.MAX_SAFE_INTEGER]. *)
Definition MAX_SAFE_INTEGER : Z := 9007199254740991.

(** [isNaN (parseInt (s))]. *)
Definition isNaN (n : option Z) : bool :=
  match n with Some _ => false | None => true end.

(** What can follow decimal digits without being read with them: nothing,
    or a character that is no digit and not the [x] of a hexadecimal
    prefix. *)
Definition ends_integer (rest : list ascii) : bool :=
  match rest with
  | [] => true
  | c :: _ => negb (Json.is_digit c) && negb (Json.ch "x"%char c || Json.ch "X"%char c)
  end.

End JsNumber.

(** ** The other tasks *)

Module Tasks.
Section Actions.

Import Js.

Variable dirname : string.
(** [process.cwd ()]. *)
Variable cwd : string.
Variable hre : HardhatRuntimeEnvironment.

(** The action of the task [deploy-collection]; Hardhat hands every
    parameter over as a string, [verify] when it was given. *)
Definition deploy_collection_action (symbol supplycap name uri : string)
    (verify : option string) : M unit :=
  if JsString.falsy symbol then throw (error "symbol is required")
  else if JsString.falsy supplycap || JsNumber.isNaN (JsNumber.parseInt supplycap) then
    throw (error "supplycap is required")
  else if JsString.falsy name then throw (error "name is required")
  else if JsString.falsy uri then throw (error "uri is required")
  else
    match JsNumber.parseInt supplycap with
    | Some collectionSupplyCap =>
        Collection.deploy_collection dirname hre symbol collectionSupplyCap name uri
          (negb (Json.falsy (Json.JStr <$> verify)))
    | None => (* excluded by the guard *) throw (error "supplycap is required")
    end.

(** The action of the task [enable-paymaster]. *)
Definition enable_paymaster (address : string) : M unit :=
  let* owner := external hre GetSigners in
  let* found := Paymaster.get dirname hre None in
  let paymaster := connect found owner in
  external hre (EnableContract (Js.address paymaster) address) ;;
  (* console.log *) ret tt.

(** The path the task [verify-paymaster] hands to [require]: the paymaster's
    record when none is given, a relative path resolved from the working
    directory. *)
Definition record_path (path : option string) : string :=
  match path with
  | None => Paymaster.getPath dirname hre
  | Some p =>
      if JsString.falsy p then Paymaster.getPath dirname hre
      else if negb (JsString.startsWith "/" p) then Path.join [cwd; p]
      else p
  end.

End Actions.
End Tasks.

(** ** Further runs *)

Module Cases.

Import Js.

(** A chain that answers every request; contracts are created at
    [address]. *)
Definition helpful (address : string) : list event -> call -> answer :=
  fun evs c =>
    match c with
    | ContractDeploy _ _ => Gives address
    | _ => Gives ""
    end.

(** A chain that refuses to create contracts. *)
Definition no_creation : list event -> call -> answer :=
  fun evs c =>
    match c with
    | ContractDeploy _ _ => Fails (error "insufficient funds")
    | _ => Gives ""
    end.

(** A service that is down. *)
Definition service_down : list event -> call -> answer :=
  fun evs c =>
    match c with
    | ContractDeploy _ _ => Gives "0xABC"
    | RunVerify _ _ => Fails (error "ETIMEDOUT")
    | _ => Gives ""
    end.


(** The world after the task [deploy-paymaster] on goerli. *)
Definition with_paymaster : world :=
  snd (Paymaster.deploy_paymaster Scenario.scripts
         (Scenario.goerli (helpful "0xPaymaster")) false Scenario.empty_world).


End Cases.

(** * Properties *)

#[local] Arguments String.append !s1 s2 : simpl nomatch.

(** The 256 characters, one by one. *)
Ltac each_char c :=
  destruct c as [[|] [|] [|] [|] [|] [|] [|] [|]].

(** ** Strings *)

Section StringFacts.

Lemma chars_app (a b : string) :
  Json.chars (a +:+ b) = Json.chars a ++ Json.chars b.
Proof. induction a as [|c a IH]; simpl; [reflexivity | now rewrite IH]. Qed.

Lemma chars_inj (a b : string) : Json.chars a = Json.chars b -> a = b.
Proof.
  intros H. rewrite <- (string_of_list_ascii_of_string a), <- (string_of_list_ascii_of_string b).
  unfold Json.chars in H. now rewrite H.
Qed.

Lemma string_app_assoc (a b c : string) : (a +:+ b) +:+ c = a +:+ (b +:+ c).
Proof. induction a as [|x a IH]; simpl; [reflexivity | now rewrite IH]. Qed.

Lemma string_app_inv_tail (a b c : string) : a +:+ c = b +:+ c -> a = b.
Proof.
  intros H. apply chars_inj. apply (f_equal Json.chars) in H.
  rewrite !chars_app in H. now apply app_inv_tail in H.
Qed.

Lemma string_app_inv_head (a b c : string) : a +:+ b = a +:+ c -> b = c.
Proof. induction a as [|x a IH]; simpl; intros H; [assumption | injection H; auto]. Qed.

Lemma falsy_app_r (a b : string) : JsString.falsy b = false -> JsString.falsy (a +:+ b) = false.
Proof. destruct a; simpl; auto. Qed.

Lemma all_app f (a b : string) :
  JsString.all f (a +:+ b) = JsString.all f a && JsString.all f b.
Proof. induction a as [|c a IH]; simpl; [reflexivity | now rewrite IH, andb_assoc]. Qed.

Lemma dot_free_with_dot (x n : string) : JsString.dot_free (x +:+ String "." n) = false.
Proof.
  unfold JsString.dot_free. induction x as [|c x IH]; simpl.
  - reflexivity.
  - rewrite IH. apply andb_false_r.
Qed.

(** Two texts cut at their last ["."] agree on both sides of it. *)
Lemma dot_cut (x1 x2 n1 n2 : string) :
  JsString.dot_free n1 = true -> JsString.dot_free n2 = true ->
  x1 +:+ String "." n1 = x2 +:+ String "." n2 -> x1 = x2 /\ n1 = n2.
Proof.
  revert x2. induction x1 as [|c x1 IH]; intros [|c' x2] D1 D2 H; simpl in H.
  - injection H as ->. auto.
  - injection H as <- ->. rewrite dot_free_with_dot in D1. discriminate.
  - injection H as -> <-. rewrite dot_free_with_dot in D2. discriminate.
  - injection H as -> H. destruct (IH x2 D1 D2 H) as [-> ->]. auto.
Qed.

End StringFacts.

(** ** Paths *)

Section PathFacts.

Lemma split_nonempty (s : string) : Path.split s <> [].
Proof.
  induction s as [|c s IH]; simpl; [discriminate|].
  destruct (JsString.is_char "/" c); [discriminate|].
  destruct (Path.split s); [congruence | discriminate].
Qed.

Lemma split_app_slash (a b : string) :
  Path.split (a +:+ String "/" b) = Path.split a ++ Path.split b.
Proof.
  induction a as [|c a IH]; simpl; [reflexivity|].
  rewrite IH. destruct (JsString.is_char "/" c); [reflexivity|].
  pose proof (split_nonempty a) as Hne.
  destruct (Path.split a); [congruence | reflexivity].
Qed.

Lemma split_slash_free (f : string) :
  JsString.slash_free f = true -> Path.split f = [f].
Proof.
  unfold JsString.slash_free.
  induction f as [|c f IH]; simpl; [reflexivity|].
  intros H. apply andb_prop in H as [Hc Hf].
  apply negb_true_iff in Hc. rewrite Hc, (IH Hf). reflexivity.
Qed.

Lemma unsplit_snoc (segs : list string) (f : string) :
  Path.unsplit (segs ++ [f]) = Path.before_last segs +:+ f.
Proof.
  induction segs as [|s segs IH]; [reflexivity|].
  change ((s :: segs) ++ [f]) with (s :: (segs ++ [f])).
  destruct segs as [|s' segs].
  - simpl. now rewrite string_app_assoc.
  - change (Path.unsplit (s :: (s' :: segs) ++ [f]))
      with (s +:+ "/" +:+ Path.unsplit ((s' :: segs) ++ [f])).
    rewrite IH. unfold Path.before_last.
    change (Path.unsplit (s :: s' :: segs)) with (s +:+ "/" +:+ Path.unsplit (s' :: segs)).
    rewrite !string_app_assoc. reflexivity.
Qed.

Lemma endsWithSlash_slash_free (f : string) :
  JsString.slash_free f = true -> Path.endsWithSlash f = false.
Proof.
  unfold JsString.slash_free.
  induction f as [|c f IH]; simpl; [reflexivity|].
  intros H. apply andb_prop in H as [Hc Hf]. apply negb_true_iff in Hc.
  destruct f; [assumption | auto].
Qed.

Lemma endsWithSlash_app (x f : string) :
  JsString.falsy f = false -> Path.endsWithSlash (x +:+ f) = Path.endsWithSlash f.
Proof.
  intros Hf. induction x as [|c x IH]; [reflexivity|].
  simpl. destruct (x +:+ f) eqn:E.
  - destruct x; simpl in E; [subst f; discriminate | discriminate].
  - exact IH.
Qed.

(** [path.join (dir, "..", f)] is [f] behind a prefix that [dir] alone
    decides. *)
Lemma join_parent_file (dir : string) :
  exists pre, forall f, Path.file_name f -> Path.join [dir; ".."; f] = pre +:+ f.
Proof.
  set (X := if JsString.falsy dir then ".." else dir +:+ "/..").
  set (abs := JsString.startsWith "/" X).
  set (kept := fold_left (Path.normalize_step (negb abs)) (Path.split X) []).
  exists ((if abs then "/" else "") +:+ Path.before_last (rev kept)).
  intros f (Hsl & Hne & Hd & Hdd).
  assert (Hf : JsString.falsy f = false) by (destruct f; [congruence | reflexivity]).
  assert (Hjoined : Path.unsplit (List.filter (fun a => negb (JsString.falsy a)) [dir; ".."; f])
                    = X +:+ String "/" f).
  { unfold X. destruct dir as [|c dir]; simpl.
    - rewrite Hf. simpl. reflexivity.
    - rewrite Hf. simpl. rewrite string_app_assoc. reflexivity. }
  unfold Path.join. cbv zeta. rewrite Hjoined.
  assert (HX : JsString.falsy X = false).
  { unfold X. destruct dir; reflexivity. }
  assert (Hfj : JsString.falsy (X +:+ String "/" f) = false).
  { apply falsy_app_r. reflexivity. }
  rewrite Hfj. unfold Path.normalize. rewrite Hfj. cbv zeta.
  assert (Habs : JsString.startsWith "/" (X +:+ String "/" f) = abs).
  { unfold abs. destruct X; [discriminate | reflexivity]. }
  rewrite Habs.
  assert (Htr : Path.endsWithSlash (X +:+ String "/" f) = false).
  { change (String "/" f) with ("/" +:+ f). rewrite <- string_app_assoc.
    rewrite endsWithSlash_app by exact Hf. now apply endsWithSlash_slash_free. }
  rewrite Htr.
  assert (Hn : Path.normalizeString (X +:+ String "/" f) (negb abs)
               = Path.before_last (rev kept) +:+ f).
  { unfold Path.normalizeString. rewrite split_app_slash, (split_slash_free f Hsl).
    rewrite fold_left_app. fold kept. simpl.
    unfold Path.normalize_step.
    destruct (decide (f = "")); [congruence|].
    destruct (decide (f = ".")); [congruence|].
    destruct (decide (f = "..")); [congruence|].
    simpl. apply unsplit_snoc. }
  rewrite Hn. rewrite (falsy_app_r _ _ Hf).
  destruct abs; simpl; reflexivity.
Qed.

Lemma join_parent_file_inj (dir f1 f2 : string) :
  Path.file_name f1 -> Path.file_name f2 ->
  Path.join [dir; ".."; f1] = Path.join [dir; ".."; f2] -> f1 = f2.
Proof.
  intros H1 H2. destruct (join_parent_file dir) as [pre Hpre].
  rewrite (Hpre f1 H1), (Hpre f2 H2). apply string_app_inv_head.
Qed.

End PathFacts.

(** ** JSON: [parse] reads back what [stringify] wrote *)

Section JsonFacts.

Import Json.

Lemma skip_ws_indent (n : nat) (s : list ascii) :
  skip_ws (nl :: spaces n ++ s) = skip_ws s.
Proof.
  change (skip_ws (nl :: spaces n ++ s)) with (skip_ws (spaces n ++ s)).
  induction n as [|n IH]; [reflexivity | exact IH].
Qed.

Lemma parse_value_ws (fuel : nat) (c : ascii) (s : list ascii) :
  is_ws c = true -> parse_value fuel (c :: s) = parse_value fuel s.
Proof. intros H. destruct fuel; simpl; [reflexivity | now rewrite H]. Qed.

Lemma parse_value_indent (fuel n : nat) (s : list ascii) :
  parse_value fuel (nl :: spaces n ++ s) = parse_value fuel s.
Proof.
  rewrite parse_value_ws by reflexivity.
  induction n as [|n IH]; [reflexivity|].
  simpl. rewrite parse_value_ws by reflexivity. exact IH.
Qed.

Lemma parse_items_indent (fuel n : nat) (s : list ascii) :
  parse_items fuel (nl :: spaces n ++ s) = parse_items fuel s.
Proof. destruct fuel; [reflexivity|]. simpl. now rewrite parse_value_indent. Qed.

Lemma parse_members_indent (fuel n : nat) (s : list ascii) :
  parse_members fuel (nl :: spaces n ++ s) = parse_members fuel s.
Proof.
  destruct fuel; [reflexivity|].
  cbn [parse_members]. now rewrite skip_ws_indent.
Qed.

(** *** Strings *)

Lemma parse_string_escape (c : ascii) (tail : list ascii) :
  parse_string (escape_char c ++ tail)
  = match parse_string tail with
    | Some (str, rest) => Some (String c str, rest)
    | None => None
    end.
Proof. each_char c; reflexivity. Qed.

Lemma parse_string_quote (s : string) (rest : list ascii) :
  parse_string (flat_map escape_char (chars s) ++ dquote :: rest) = Some (s, rest).
Proof.
  induction s as [|c s IH]; [reflexivity|].
  change (chars (String c s)) with (c :: chars s).
  cbn [flat_map]. rewrite <- app_assoc, parse_string_escape, IH. reflexivity.
Qed.

(** *** Numbers *)

Lemma is_digit_not_minus (c : ascii) : is_digit c = true -> ch "-" c = false.
Proof. each_char c; intros H; try reflexivity; discriminate H. Qed.

Lemma uint_digits (u : Decimal.uint) :
  Forall (fun c => is_digit c = true) (chars (NilEmpty.string_of_uint u)).
Proof. induction u; simpl; constructor; auto. Qed.

Lemma span_digits_all (ds rest : list ascii) :
  Forall (fun c => is_digit c = true) ds -> ends_number rest = true ->
  span_digits (ds ++ rest) = (ds, rest).
Proof.
  intros Hds Hrest. induction Hds as [|c ds Hc _ IH]; simpl.
  - destruct rest as [|c rest]; [reflexivity|].
    simpl in Hrest. apply andb_prop in Hrest as [Hd _].
    apply negb_true_iff in Hd. simpl. now rewrite Hd.
  - now rewrite Hc, IH.
Qed.

(** The decimal digits of a positive number do not start with a zero. *)
Lemma to_uint_no_leading_zero (p : positive) (u : Decimal.uint) :
  Pos.to_uint p <> Decimal.D0 u.
Proof.
  intros E.
  assert (Hn : Decimal.unorm (Pos.to_uint p) = Pos.to_uint p).
  { rewrite <- (DecimalPos.Unsigned.to_of (Pos.to_uint p)).
    now rewrite DecimalPos.Unsigned.of_to. }
  rewrite E, DecimalFacts.unorm_D0 in Hn.
  destruct (Decimal.uint_eq_dec u Decimal.Nil) as [->|Hu].
  - apply (DecimalPos.Unsigned.to_uint_nonzero p). exact E.
  - pose proof (DecimalFacts.nb_digits_unorm u Hu) as Hle.
    rewrite Hn in Hle. simpl in Hle. lia.
Qed.

Lemma digits_value_uint (u : Decimal.uint) :
  digits_value (chars (NilEmpty.string_of_uint u)) = Some u.
Proof.
  unfold digits_value, chars.
  now rewrite string_of_list_ascii_of_string, NilEmpty.usu.
Qed.

Lemma to_uint_head (p : positive) :
  exists d more,
    chars (NilEmpty.string_of_uint (Pos.to_uint p)) = d :: more /\ ch "0" d = false.
Proof.
  pose proof (to_uint_no_leading_zero p) as Hnz.
  destruct (Pos.to_uint p) as [|u|u|u|u|u|u|u|u|u|u] eqn:E;
    try (exfalso; apply (DecimalPos.Unsigned.to_uint_nonnil p); exact E);
    try (exfalso; apply (Hnz u); reflexivity);
    eexists _, _; split; reflexivity.
Qed.

Lemma parse_unsigned_digits (negative : bool) (p : positive) (rest : list ascii) :
  ends_number rest = true ->
  parse_unsigned negative (chars (NilEmpty.string_of_uint (Pos.to_uint p)) ++ rest)
  = Some (if negative then Zneg p else Zpos p, rest).
Proof.
  intros Hrest. unfold parse_unsigned.
  rewrite (span_digits_all _ _ (uint_digits _) Hrest).
  pose proof (digits_value_uint (Pos.to_uint p)) as Hval.
  assert (Hfrac : match rest with c :: _ => is_frac_or_exp c | [] => false end = false).
  { destruct rest as [|c rest]; [reflexivity|].
    simpl in Hrest. apply andb_prop in Hrest as [_ Hf]. now apply negb_true_iff in Hf. }
  assert (Hz : Z.of_int (if negative then Decimal.Neg (Pos.to_uint p)
                         else Decimal.Pos (Pos.to_uint p))
               = if negative then Zneg p else Zpos p).
  { destruct negative.
    - exact (DecimalZ.of_to (Zneg p)).
    - exact (DecimalZ.of_to (Zpos p)). }
  destruct (to_uint_head p) as (d & more & Hd & Hd0).
  rewrite Hd in *. rewrite Hd0, Hfrac, Hval, Hz. reflexivity.
Qed.

Lemma string_of_pos (p : positive) :
  NilZero.string_of_uint (Pos.to_uint p) = NilEmpty.string_of_uint (Pos.to_uint p).
Proof.
  unfold NilZero.string_of_uint.
  destruct (Pos.to_uint p) eqn:E; try reflexivity.
  exfalso. apply (DecimalPos.Unsigned.to_uint_nonnil p). exact E.
Qed.

Lemma number_head (n : Z) :
  exists c r, number_to_string n = c :: r /\ is_num_start c = true.
Proof.
  unfold number_to_string.
  destruct n as [|p|p]; simpl.
  - eexists _, _. split; reflexivity.
  - rewrite string_of_pos.
    destruct (to_uint_head p) as (d & more & Hd & _).
    pose proof (uint_digits (Pos.to_uint p)) as Hds.
    rewrite Hd in *. inversion Hds as [|? ? Hc _]; subst.
    exists d, more. split; [reflexivity|].
    unfold is_num_start. rewrite Hc. apply orb_true_r.
  - eexists _, _. split; reflexivity.
Qed.

Lemma parse_number_to_string (n : Z) (rest : list ascii) :
  ends_number rest = true ->
  parse_number (number_to_string n ++ rest) = Some (n, rest).
Proof.
  intros Hrest. unfold number_to_string.
  destruct n as [|p|p]; simpl Z.to_int; simpl NilZero.string_of_int.
  - change (parse_unsigned false ("0"%char :: rest) = Some (0%Z, rest)).
    unfold parse_unsigned.
    pose proof (span_digits_all [] rest (List.Forall_nil _) Hrest) as Hsp.
    simpl in Hsp. simpl. rewrite Hsp.
    destruct rest as [|c rest]; [reflexivity|].
    simpl in Hrest. apply andb_prop in Hrest as [_ Hf]. apply negb_true_iff in Hf.
    simpl. rewrite Hf. reflexivity.
  - rewrite string_of_pos.
    destruct (to_uint_head p) as (d & more & Hd & _).
    pose proof (uint_digits (Pos.to_uint p)) as Hds.
    pose proof (parse_unsigned_digits false p rest Hrest) as Hp.
    rewrite Hd in *. inversion Hds as [|? ? Hc _]; subst.
    change ((d :: more) ++ rest) with (d :: (more ++ rest)) in *.
    unfold parse_number. rewrite (is_digit_not_minus d Hc). exact Hp.
  - rewrite string_of_pos.
    change (parse_unsigned true (chars (NilEmpty.string_of_uint (Pos.to_uint p)) ++ rest)
            = Some (Zneg p, rest)).
    exact (parse_unsigned_digits true p rest Hrest).
Qed.

(** *** Values *)

Lemma size_pos (v : value) : 1 <= size v.
Proof. destruct v; simpl; lia. Qed.

Lemma size_array (x : value) (xs : list value) :
  size (JArr (x :: xs)) = S (S (size x) + items_size xs).
Proof. reflexivity. Qed.

Lemma size_object (k : string) (x : value) (ps : list (string * value)) :
  size (JObj ((k, x) :: ps)) = S (S (size x) + props_size ps).
Proof. reflexivity. Qed.

Lemma items_size_cons (x : value) (xs : list value) :
  items_size (x :: xs) = S (size x) + items_size xs.
Proof. reflexivity. Qed.

Lemma props_size_cons (p : string * value) (ps : list (string * value)) :
  props_size (p :: ps) = S (size (snd p)) + props_size ps.
Proof. reflexivity. Qed.

Lemma is_num_start_head (c : ascii) :
  is_num_start c = true ->
  is_ws c = false /\ ch "]" c = false /\ ch "}" c = false.
Proof. each_char c; intros H; try (repeat split; reflexivity); discriminate H. Qed.

(** A value's text starts with a character that is no white space and
    closes no array or object. *)
Lemma serialize_head (i : nat) (v : value) :
  exists c r, serialize i v = c :: r
              /\ is_ws c = false /\ ch "]" c = false /\ ch "}" c = false.
Proof.
  destruct v as [|[|]|n|s|[|x xs]|[|p ps]];
    try (eexists _, _; split; [reflexivity | repeat split; reflexivity]).
  destruct (number_head n) as (c & r & E & Hc).
  exists c, r. split; [exact E | now apply is_num_start_head].
Qed.

Lemma ends_number_items (i j : nat) (l : list value) (rest : list ascii) :
  ends_number (flat_map (item_text i) l ++ nl :: spaces j ++ rest) = true.
Proof. destruct l; reflexivity. Qed.

Lemma ends_number_props (i j : nat) (l : list (string * value)) (rest : list ascii) :
  ends_number (flat_map (prop_text i) l ++ nl :: spaces j ++ rest) = true.
Proof. destruct l; reflexivity. Qed.

Lemma serialize_array (i : nat) (x : value) (xs : list value) (rest : list ascii) :
  serialize i (JArr (x :: xs)) ++ rest
  = "["%char :: nl :: spaces (i + 2) ++ serialize (i + 2) x ++
    flat_map (item_text (i + 2)) xs ++ nl :: spaces i ++ "]"%char :: rest.
Proof.
  cbn [serialize]. fold (item_text (i + 2)). cbn [app].
  rewrite <- !app_assoc. cbn [app]. rewrite <- !app_assoc. reflexivity.
Qed.

Lemma serialize_object (i : nat) (k : string) (x : value) (ps : list (string * value))
    (rest : list ascii) :
  serialize i (JObj ((k, x) :: ps)) ++ rest
  = "{"%char :: nl :: spaces (i + 2) ++ quote k ++ ":"%char :: " "%char ::
    serialize (i + 2) x ++
    flat_map (prop_text (i + 2)) ps ++ nl :: spaces i ++ "}"%char :: rest.
Proof.
  cbn [serialize fst snd]. fold (prop_text (i + 2)). cbn [app].
  rewrite <- !app_assoc. cbn [app]. rewrite <- !app_assoc. cbn [app].
  rewrite <- !app_assoc. reflexivity.
Qed.

Lemma parse_value_array (fuel : nat) (r : list ascii) :
  parse_value (S fuel) ("["%char :: r)
  = match skip_ws r with
    | c' :: r' =>
        if ch "]" c' then Some (JArr [], r')
        else match parse_items fuel r with
             | Some (l, rest) => Some (JArr l, rest)
             | None => None
             end
    | [] => None
    end.
Proof. reflexivity. Qed.

Lemma parse_value_object (fuel : nat) (r : list ascii) :
  parse_value (S fuel) ("{"%char :: r)
  = match skip_ws r with
    | c' :: r' =>
        if ch "}" c' then Some (JObj [], r')
        else match parse_members fuel r with
             | Some (l, rest) => Some (JObj l, rest)
             | None => None
             end
    | [] => None
    end.
Proof. reflexivity. Qed.

Lemma parse_items_step (fuel : nat) (s : list ascii) :
  parse_items (S fuel) s
  = match parse_value fuel s with
    | Some (v, r) =>
        match skip_ws r with
        | c :: r' =>
            if ch "," c then
              match parse_items fuel r' with
              | Some (l, rest) => Some (v :: l, rest)
              | None => None
              end
            else if ch "]" c then Some ([v], r')
            else None
        | [] => None
        end
    | None => None
    end.
Proof. reflexivity. Qed.

Lemma parse_members_step (fuel : nat) (k : string) (s : list ascii) :
  parse_members (S fuel) (quote k ++ ":"%char :: s)
  = match parse_value fuel s with
    | Some (v, r3) =>
        match skip_ws r3 with
        | c :: r4 =>
            if ch "," c then
              match parse_members fuel r4 with
              | Some (l, rest) => Some ((k, v) :: l, rest)
              | None => None
              end
            else if ch "}" c then Some ([(k, v)], r4)
            else None
        | [] => None
        end
    | None => None
    end.
Proof.
  unfold quote. cbn [app]. rewrite <- app_assoc. cbn [app].
  cbn [parse_members skip_ws].
  change (is_ws dquote) with false. cbv iota.
  change (ch dquote dquote) with true. cbv iota.
  rewrite parse_string_quote. reflexivity.
Qed.

Lemma parse_serialize_fuel (fuel : nat) :
  (forall v i rest,
      size v <= fuel -> ends_number rest = true ->
      parse_value fuel (serialize i v ++ rest) = Some (v, rest))
  /\ (forall l x i j rest,
         S (size x) + items_size l <= fuel ->
         parse_items fuel
           (serialize i x ++ flat_map (item_text i) l ++ nl :: spaces j ++ "]"%char :: rest)
         = Some (x :: l, rest))
  /\ (forall ps k x i j rest,
         S (size x) + props_size ps <= fuel ->
         parse_members fuel
           (quote k ++ ":"%char :: " "%char :: serialize i x ++
            flat_map (prop_text i) ps ++ nl :: spaces j ++ "}"%char :: rest)
         = Some ((k, x) :: ps, rest)).
Proof.
  induction fuel as [|fuel (IHV & IHI & IHM)].
  - split; [|split]; intros; try lia.
    pose proof (size_pos v). lia.
  - split; [|split].
    + intros v i rest Hsize Hrest.
      destruct v as [|[|]|n|s|[|x xs]|[|[k x] ps]]; try reflexivity.
      * destruct (number_head n) as (c & r & E & Hc).
        pose proof (parse_number_to_string n rest Hrest) as Hn.
        cbn [serialize] in *. rewrite E in *.
        destruct (is_num_start_head c Hc) as (Hws & _).
        cbn [parse_value app skip_ws]. rewrite Hws, Hc.
        change (c :: r ++ rest) with ((c :: r) ++ rest). rewrite Hn. reflexivity.
      * cbn [serialize]. unfold quote.
        cbn [app]. rewrite <- app_assoc. cbn [app].
        cbn [parse_value skip_ws].
        change (is_ws dquote) with false. cbv iota.
        change (is_num_start dquote) with false. cbv iota.
        change (ch dquote dquote) with true. cbv iota.
        rewrite parse_string_quote. reflexivity.
      * rewrite serialize_array, parse_value_array, skip_ws_indent, parse_items_indent.
        destruct (serialize_head (i + 2) x) as (c & r & E & Hws & Hclose & _).
        rewrite IHI by (rewrite size_array in Hsize; lia).
        rewrite E. cbn [app skip_ws]. rewrite Hws, Hclose. reflexivity.
      * rewrite serialize_object, parse_value_object, skip_ws_indent, parse_members_indent.
        rewrite IHM by (rewrite size_object in Hsize; lia).
        reflexivity.
    + intros l x i j rest Hsize.
      rewrite parse_items_step.
      rewrite IHV by (try apply ends_number_items; lia).
      destruct l as [|y l].
      * cbn [flat_map app]. rewrite skip_ws_indent. reflexivity.
      * cbn [flat_map]. unfold item_text at 1. cbn [app]. rewrite <- !app_assoc.
        cbn [skip_ws]. change (is_ws ",") with false. cbv iota.
        change (ch "," ",") with true. cbv iota.
        rewrite parse_items_indent.
        rewrite IHI by (rewrite items_size_cons in Hsize; lia).
        reflexivity.
    + intros ps k x i j rest Hsize.
      rewrite parse_members_step, parse_value_ws by reflexivity.
      rewrite IHV by (try apply ends_number_props; lia).
      destruct ps as [|[k' y] ps].
      * cbn [flat_map app]. rewrite skip_ws_indent. reflexivity.
      * cbn [flat_map]. unfold prop_text at 1. cbn [app fst snd]. rewrite <- !app_assoc.
        cbn [skip_ws]. change (is_ws ",") with false. cbv iota.
        change (ch "," ",") with true. cbv iota.
        rewrite parse_members_indent. cbn [app].
        rewrite IHM by (rewrite props_size_cons in Hsize; cbn [snd] in Hsize; lia).
        reflexivity.
Qed.

(** *** The fuel [parse] gives is enough *)

Lemma length_spaces (n : nat) : length (spaces n) = n.
Proof. induction n; simpl; auto. Qed.

Lemma items_size_le_length (n : nat) :
  (forall y i, size y <= n -> size y <= length (serialize i y)) ->
  forall l i, items_size l <= n -> items_size l <= length (flat_map (item_text i) l).
Proof.
  intros IH l i. induction l as [|y l IHl]; intros Hn; [unfold items_size; simpl; lia|].
  rewrite items_size_cons in *. cbn [flat_map]. unfold item_text at 1.
  rewrite length_app. cbn [length]. rewrite length_app, length_spaces.
  specialize (IH y i ltac:(lia)). specialize (IHl ltac:(lia)). lia.
Qed.

Lemma props_size_le_length (n : nat) :
  (forall y i, size y <= n -> size y <= length (serialize i y)) ->
  forall l i, props_size l <= n -> props_size l <= length (flat_map (prop_text i) l).
Proof.
  intros IH l i. induction l as [|[k y] l IHl]; intros Hn; [unfold props_size; simpl; lia|].
  rewrite props_size_cons in *. cbn [snd] in *. cbn [flat_map]. unfold prop_text at 1.
  rewrite length_app. cbn [length fst snd].
  rewrite !length_app, length_spaces. cbn [length].
  specialize (IH y i ltac:(lia)). specialize (IHl ltac:(lia)). lia.
Qed.

Lemma size_le_length_bounded (n : nat) :
  forall v i, size v <= n -> size v <= length (serialize i v).
Proof.
  induction n as [|n IH]; intros v i Hn.
  - pose proof (size_pos v). lia.
  - destruct v as [|[|]|z|s|[|x xs]|[|[k x] ps]]; try (simpl; lia).
    + destruct (number_head z) as (c & r & E & _).
      cbn [serialize size]. rewrite E. simpl. lia.
    + pose proof (serialize_array i x xs []) as E. rewrite app_nil_r in E.
      rewrite E. rewrite size_array in *.
      cbn [length]. rewrite !length_app, length_spaces. cbn [length].
      rewrite !length_app.
      pose proof (IH x (i + 2) ltac:(lia)).
      pose proof (items_size_le_length n IH xs (i + 2) ltac:(lia)). lia.
    + pose proof (serialize_object i k x ps []) as E. rewrite app_nil_r in E.
      rewrite E. rewrite size_object in *.
      cbn [length]. rewrite !length_app, length_spaces. cbn [length].
      rewrite !length_app.
      pose proof (IH x (i + 2) ltac:(lia)).
      pose proof (props_size_le_length n IH ps (i + 2) ltac:(lia)). lia.
Qed.

Lemma size_le_length (v : value) (i : nat) : size v <= length (serialize i v).
Proof. now apply (size_le_length_bounded (size v)). Qed.

(** [JSON.parse (JSON.stringify (v, null, 2))] is [v]. *)
Lemma parse_stringify (v : value) : parse (stringify v) = Some v.
Proof.
  unfold parse, stringify, chars. rewrite list_ascii_of_string_of_list_ascii.
  destruct (parse_serialize_fuel (S (length (serialize 0 v)))) as (HV & _).
  specialize (HV v 0 [] ltac:(pose proof (size_le_length v 0); lia) eq_refl).
  rewrite app_nil_r in HV. rewrite HV. reflexivity.
Qed.

End JsonFacts.

(** ** JSON: what [parse] reads is JSON, and the fuel of [accepts] is enough *)

(** Runs a recogniser one step with the fuel [f], along the branch the
    equations in the context tell. *)
Ltac refuel f :=
  destruct f as [|f]; [simpl in *; lia|];
  cbn [Json.skip_value Json.skip_items Json.skip_members];
  repeat match goal with
         | E : Json.skip_ws ?x = _ |- context [Json.skip_ws ?x] => rewrite E
         | E : Json.skip_string ?x = _ |- context [Json.skip_string ?x] => rewrite E
         | E : ?c = true |- context [if ?c then _ else _] => rewrite E
         | E : ?c = false |- context [if ?c then _ else _] => rewrite E
         end.

Section Grammar.

Import Json.

Lemma skip_unsigned_of_parse negative s n rest :
  parse_unsigned negative s = Some (n, rest) -> skip_unsigned s = Some rest.
Proof.
  unfold parse_unsigned, skip_unsigned.
  destruct (span_digits s) as [ds r]. destruct ds as [|d more]; [discriminate|].
  destruct (ch "0" d && negb (Nat.eqb (length more) 0)); [discriminate|].
  destruct r as [|c r].
  - destruct (digits_value (d :: more)); [|discriminate].
    intros H. injection H as _ <-. reflexivity.
  - destruct (is_frac_or_exp c) eqn:Hc; [discriminate|].
    destruct (digits_value (d :: more)); [|discriminate].
    intros H. injection H as _ <-.
    unfold is_frac_or_exp in Hc.
    apply orb_false_elim in Hc as [Hc He2]. apply orb_false_elim in Hc as [Hdot He1].
    unfold skip_fraction. rewrite Hdot. unfold skip_exponent. rewrite He1, He2. reflexivity.
Qed.

Lemma skip_number_of_parse s n rest :
  parse_number s = Some (n, rest) -> skip_number s = Some rest.
Proof.
  unfold parse_number, skip_number. destruct s as [|c r]; [discriminate|].
  destruct (ch "-" c); apply skip_unsigned_of_parse.
Qed.

Lemma unicode_escape_hex h1 h2 h3 h4 x :
  unicode_escape h1 h2 h3 h4 = Some x ->
  exists a b c d,
    hex_value h1 = Some a /\ hex_value h2 = Some b
    /\ hex_value h3 = Some c /\ hex_value h4 = Some d.
Proof.
  unfold unicode_escape.
  destruct (hex_value h1), (hex_value h2), (hex_value h3), (hex_value h4);
    try discriminate; eauto 8.
Qed.

Lemma skip_string_of_parse_bounded n :
  forall s str rest,
    length s <= n -> parse_string s = Some (str, rest) -> skip_string s = Some rest.
Proof.
  induction n as [|n IH]; intros s str rest Hlen H.
  - destruct s; [discriminate H | simpl in Hlen; lia].
  - destruct s as [|c r]; [discriminate H|].
    cbn [parse_string] in H. cbn [skip_string].
    destruct (ch dquote c); [now injection H as _ <-|].
    destruct (ch backslash c).
    + destruct r as [|e r1]; [discriminate H|].
      destruct (ch "u" e).
      * destruct r1 as [|h1 [|h2 [|h3 [|h4 r2]]]]; try discriminate H.
        destruct (unicode_escape h1 h2 h3 h4) as [x|] eqn:Hx; [|discriminate H].
        apply unicode_escape_hex in Hx as (a & b & c' & d & -> & -> & -> & ->).
        destruct (parse_string r2) as [[str' rest']|] eqn:Hp; [|discriminate H].
        injection H as _ <-. apply (IH r2 str' rest'); [simpl in Hlen; lia | exact Hp].
      * destruct (simple_escape e); [|discriminate H].
        destruct (parse_string r1) as [[str' rest']|] eqn:Hp; [|discriminate H].
        injection H as _ <-. apply (IH r1 str' rest'); [simpl in Hlen; lia | exact Hp].
    + destruct (Nat.ltb (nat_of_ascii c) 32); [discriminate H|].
      destruct (parse_string r) as [[str' rest']|] eqn:Hp; [|discriminate H].
      injection H as _ <-. apply (IH r str' rest'); [simpl in Hlen; lia | exact Hp].
Qed.

Lemma skip_string_of_parse s str rest :
  parse_string s = Some (str, rest) -> skip_string s = Some rest.
Proof. apply (skip_string_of_parse_bounded (length s)). lia. Qed.

Lemma skip_of_parse (fuel : nat) :
  (forall s v r, parse_value fuel s = Some (v, r) -> skip_value fuel s = Some r)
  /\ (forall s l r, parse_items fuel s = Some (l, r) -> skip_items fuel s = Some r)
  /\ (forall s l r, parse_members fuel s = Some (l, r) -> skip_members fuel s = Some r).
Proof.
  induction fuel as [|fuel (IHv & IHi & IHm)].
  - repeat split; intros; discriminate.
  - split; [|split].
    + intros s v r H. cbn [parse_value] in H. cbn [skip_value].
      destruct (skip_ws s) as [|c t]; [discriminate H|].
      destruct (is_num_start c).
      { destruct (parse_number (c :: t)) as [[n rest]|] eqn:Hn; [|discriminate H].
        injection H as _ <-. now apply skip_number_of_parse in Hn. }
      destruct (ch dquote c).
      { destruct (parse_string t) as [[str rest]|] eqn:Hs; [|discriminate H].
        injection H as _ <-. now apply skip_string_of_parse in Hs. }
      destruct (ch "[" c).
      { destruct (skip_ws t) as [|c' t']; [discriminate H|].
        destruct (ch "]" c'); [now injection H as _ <-|].
        destruct (parse_items fuel t) as [[l rest]|] eqn:Hi; [|discriminate H].
        injection H as _ <-. now apply IHi in Hi. }
      destruct (ch "{" c).
      { destruct (skip_ws t) as [|c' t']; [discriminate H|].
        destruct (ch "}" c'); [now injection H as _ <-|].
        destruct (parse_members fuel t) as [[l rest]|] eqn:Hm; [|discriminate H].
        injection H as _ <-. now apply IHm in Hm. }
      destruct (ch "n" c).
      { destruct (expect (chars "ull") t); [now injection H as _ <-|discriminate H]. }
      destruct (ch "t" c).
      { destruct (expect (chars "rue") t); [now injection H as _ <-|discriminate H]. }
      destruct (ch "f" c); [|discriminate H].
      destruct (expect (chars "alse") t); [now injection H as _ <-|discriminate H].
    + intros s l r H. rewrite parse_items_step in H. cbn [skip_items].
      destruct (parse_value fuel s) as [[v t]|] eqn:Hv; [|discriminate H].
      rewrite (IHv _ _ _ Hv).
      destruct (skip_ws t) as [|c t']; [discriminate H|].
      destruct (ch "," c).
      { destruct (parse_items fuel t') as [[l' rest]|] eqn:Hi; [|discriminate H].
        injection H as _ <-. now apply IHi in Hi. }
      destruct (ch "]" c); [now injection H as _ <-|discriminate H].
    + intros s l r H. cbn [parse_members] in H. cbn [skip_members].
      destruct (skip_ws s) as [|q r0]; [discriminate H|].
      destruct (ch dquote q); [|discriminate H].
      destruct (parse_string r0) as [[k r1]|] eqn:Hk; [|discriminate H].
      rewrite (skip_string_of_parse _ _ _ Hk).
      destruct (skip_ws r1) as [|colon r2]; [discriminate H|].
      destruct (ch ":" colon); [|discriminate H].
      destruct (parse_value fuel r2) as [[v r3]|] eqn:Hv; [|discriminate H].
      rewrite (IHv _ _ _ Hv).
      destruct (skip_ws r3) as [|c r4]; [discriminate H|].
      destruct (ch "," c).
      { destruct (parse_members fuel r4) as [[l' rest]|] eqn:Hm; [|discriminate H].
        injection H as _ <-. now apply IHm in Hm. }
      destruct (ch "}" c); [now injection H as _ <-|discriminate H].
Qed.



Lemma skip_ws_length s : length (skip_ws s) <= length s.
Proof.
  induction s as [|c s IH]; [reflexivity|]. cbn [skip_ws].
  destruct (is_ws c); simpl; lia.
Qed.

Lemma skip_string_length_bounded n :
  forall s r, length s <= n -> skip_string s = Some r -> length r < length s.
Proof.
  induction n as [|n IH]; intros s r Hlen H.
  - destruct s; [discriminate H | simpl in Hlen; lia].
  - destruct s as [|c t]; [discriminate H|]. cbn [skip_string] in H.
    destruct (ch dquote c); [injection H as <-; simpl; lia|].
    destruct (ch backslash c).
    + destruct t as [|e r1]; [discriminate H|].
      destruct (ch "u" e).
      * destruct r1 as [|h1 [|h2 [|h3 [|h4 r2]]]]; try discriminate H.
        destruct (hex_value h1), (hex_value h2), (hex_value h3), (hex_value h4);
          try discriminate H.
        apply IH in H; simpl in *; lia.
      * destruct (simple_escape e); [|discriminate H].
        apply IH in H; simpl in *; lia.
    + destruct (Nat.ltb (nat_of_ascii c) 32); [discriminate H|].
      apply IH in H; simpl in *; lia.
Qed.

Lemma expect_length word s r : expect word s = Some r -> length r <= length s.
Proof.
  revert s. induction word as [|x word IH]; intros s H.
  - destruct s; injection H as <-; reflexivity.
  - destruct s as [|c s]; [discriminate H|]. cbn [expect] in H.
    destruct (ch x c); [|discriminate H]. apply IH in H. simpl. lia.
Qed.

Lemma span_digits_lengths s :
  length s = length (fst (span_digits s)) + length (snd (span_digits s)).
Proof.
  induction s as [|c s IH]; [reflexivity|]. cbn [span_digits].
  destruct (is_digit c); [|reflexivity].
  destruct (span_digits s) as [ds rest]. simpl in *. lia.
Qed.

Lemma skip_digits1_length s r : skip_digits1 s = Some r -> length r <= length s.
Proof.
  unfold skip_digits1. pose proof (span_digits_lengths s) as Hl.
  destruct (span_digits s) as [[|d ds] rest]; [discriminate|].
  intros H. injection H as <-. simpl in Hl. lia.
Qed.

Lemma skip_fraction_length s r : skip_fraction s = Some r -> length r <= length s.
Proof.
  unfold skip_fraction. destruct s as [|c t]; [now intros [= <-]|].
  destruct (ch "." c); [|now intros [= <-]].
  intros H. apply skip_digits1_length in H. simpl. lia.
Qed.

Lemma skip_exponent_length s r : skip_exponent s = Some r -> length r <= length s.
Proof.
  unfold skip_exponent. destruct s as [|c t]; [now intros [= <-]|].
  destruct (ch "e" c || ch "E" c); [|now intros [= <-]].
  destruct t as [|sign t']; [discriminate|].
  destruct (ch "+" sign || ch "-" sign); intros H; apply skip_digits1_length in H;
    simpl in *; lia.
Qed.

Lemma skip_unsigned_length s r : skip_unsigned s = Some r -> length r < length s.
Proof.
  unfold skip_unsigned. pose proof (span_digits_lengths s) as Hl.
  destruct (span_digits s) as [[|d more] rest]; [discriminate|].
  destruct (ch "0" d && negb (Nat.eqb (length more) 0)); [discriminate|].
  destruct (skip_fraction rest) as [r1|] eqn:Hf; [|discriminate].
  intros He. apply skip_fraction_length in Hf. apply skip_exponent_length in He.
  simpl in Hl. lia.
Qed.

Lemma skip_number_length s r : skip_number s = Some r -> length r < length s.
Proof.
  unfold skip_number. destruct s as [|c t]; [discriminate|].
  destruct (ch "-" c); intros H; apply skip_unsigned_length in H; simpl in *; lia.
Qed.

(** The fuel a value needs is no more than the characters it takes. *)
Lemma skip_fuel_bound (fuel : nat) :
  (forall s r, skip_value fuel s = Some r ->
               length r < length s
               /\ forall f, length s - length r <= f -> skip_value f s = Some r)
  /\ (forall s r, skip_items fuel s = Some r ->
                  length r < length s
                  /\ forall f, length s - length r <= f -> skip_items f s = Some r)
  /\ (forall s r, skip_members fuel s = Some r ->
                  length r < length s
                  /\ forall f, length s - length r <= f -> skip_members f s = Some r).
Proof.
  induction fuel as [|fuel (IHv & IHi & IHm)].
  - repeat split; intros; discriminate.
  - split; [|split].
    + intros s r H. cbn [skip_value] in H.
      pose proof (skip_ws_length s) as Hws.
      destruct (skip_ws s) as [|c t] eqn:Es; [discriminate H|]. simpl in Hws.
      destruct (is_num_start c) eqn:E1.
      { pose proof (skip_number_length _ _ H) as Hl. simpl in Hl.
        split; [lia|]. intros f Hf. refuel f. exact H. }
      destruct (ch dquote c) eqn:E2.
      { pose proof (skip_string_length_bounded _ _ _ (le_n _) H) as Hl.
        split; [lia|]. intros f Hf. refuel f. reflexivity. }
      destruct (ch "[" c) eqn:E3.
      { pose proof (skip_ws_length t) as Hwt.
        destruct (skip_ws t) as [|c' t'] eqn:Et; [discriminate H|]. simpl in Hwt.
        destruct (ch "]" c') eqn:Ec.
        - injection H as <-. split; [lia|]. intros f Hf. refuel f. reflexivity.
        - apply IHi in H as [Hl Hi]. split; [lia|]. intros f Hf. refuel f.
          apply Hi. lia. }
      destruct (ch "{" c) eqn:E4.
      { pose proof (skip_ws_length t) as Hwt.
        destruct (skip_ws t) as [|c' t'] eqn:Et; [discriminate H|]. simpl in Hwt.
        destruct (ch "}" c') eqn:Ec.
        - injection H as <-. split; [lia|]. intros f Hf. refuel f. reflexivity.
        - apply IHm in H as [Hl Hm]. split; [lia|]. intros f Hf. refuel f.
          apply Hm. lia. }
      destruct (ch "n" c) eqn:E5.
      { pose proof (expect_length _ _ _ H) as Hl.
        split; [lia|]. intros f Hf. refuel f. exact H. }
      destruct (ch "t" c) eqn:E6.
      { pose proof (expect_length _ _ _ H) as Hl.
        split; [lia|]. intros f Hf. refuel f. exact H. }
      destruct (ch "f" c) eqn:E7; [|discriminate H].
      pose proof (expect_length _ _ _ H) as Hl.
      split; [lia|]. intros f Hf. refuel f. exact H.
    + intros s r H. cbn [skip_items] in H.
      destruct (skip_value fuel s) as [t|] eqn:Hv; [|discriminate H].
      apply IHv in Hv as [Hlv Hv].
      pose proof (skip_ws_length t) as Hwt.
      destruct (skip_ws t) as [|c t'] eqn:Et; [discriminate H|]. simpl in Hwt.
      destruct (ch "," c) eqn:E1.
      { apply IHi in H as [Hl Hi]. split; [lia|]. intros f Hf. refuel f.
        rewrite (Hv f) by lia. rewrite Et, E1. apply Hi. lia. }
      destruct (ch "]" c) eqn:E2; [|discriminate H].
      injection H as <-. split; [lia|]. intros f Hf. refuel f.
      rewrite (Hv f) by lia. rewrite Et, E1, E2. reflexivity.
    + intros s r H. cbn [skip_members] in H.
      pose proof (skip_ws_length s) as Hws.
      destruct (skip_ws s) as [|q r0] eqn:Es; [discriminate H|]. simpl in Hws.
      destruct (ch dquote q) eqn:E1; [|discriminate H].
      destruct (skip_string r0) as [r1|] eqn:Hk; [|discriminate H].
      pose proof (skip_string_length_bounded _ _ _ (le_n _) Hk) as Hlk.
      pose proof (skip_ws_length r1) as Hw1.
      destruct (skip_ws r1) as [|colon r2] eqn:E1'; [discriminate H|]. simpl in Hw1.
      destruct (ch ":" colon) eqn:E2; [|discriminate H].
      destruct (skip_value fuel r2) as [r3|] eqn:Hv; [|discriminate H].
      apply IHv in Hv as [Hlv Hv].
      pose proof (skip_ws_length r3) as Hw3.
      destruct (skip_ws r3) as [|c r4] eqn:E3; [discriminate H|]. simpl in Hw3.
      destruct (ch "," c) eqn:E4.
      { apply IHm in H as [Hl Hm]. split; [lia|]. intros f Hf. refuel f.
        rewrite (Hv f) by lia. rewrite E3, E4. apply Hm. lia. }
      destruct (ch "}" c) eqn:E5; [|discriminate H].
      injection H as <-. split; [lia|]. intros f Hf. refuel f.
      rewrite (Hv f) by lia. rewrite E3, E4, E5. reflexivity.
Qed.

(** The fuel of [accepts] is enough: what the recogniser takes for a value
    with any fuel, it takes with the fuel of [accepts]. *)
Lemma accepts_fuel (fuel : nat) (text : string) (r : list ascii) :
  skip_value fuel (chars text) = Some r -> skip_ws r = [] -> accepts text = true.
Proof.
  intros H Hr. unfold accepts. cbv zeta.
  apply (proj1 (skip_fuel_bound fuel)) in H as [_ H].
  rewrite (H (S (length (chars text)))) by lia. now rewrite Hr.
Qed.

End Grammar.

(** Runs the parser one step with the fuel [f], along the branch the
    equations in the context tell. *)
Ltac reparse f :=
  destruct f as [|f]; [simpl in *; lia|];
  cbn [Json.parse_value Json.parse_items Json.parse_members];
  repeat match goal with
         | E : Json.skip_ws ?x = _ |- context [Json.skip_ws ?x] => rewrite E
         | E : Json.parse_string ?x = _ |- context [Json.parse_string ?x] => rewrite E
         | E : Json.parse_number ?x = _ |- context [Json.parse_number ?x] => rewrite E
         | E : Json.expect ?x ?y = _ |- context [Json.expect ?x ?y] => rewrite E
         | E : ?c = true |- context [if ?c then _ else _] => rewrite E
         | E : ?c = false |- context [if ?c then _ else _] => rewrite E
         end.

Section ParserFuel.

Import Json.

Lemma parse_value_length fuel s v r :
  parse_value fuel s = Some (v, r) -> length r < length s.
Proof.
  intros H. apply (proj1 (skip_of_parse fuel)) in H.
  now apply (proj1 (skip_fuel_bound fuel)) in H.
Qed.

Lemma parse_items_length fuel s l r :
  parse_items fuel s = Some (l, r) -> length r < length s.
Proof.
  intros H. apply (proj1 (proj2 (skip_of_parse fuel))) in H.
  now apply (proj1 (proj2 (skip_fuel_bound fuel))) in H.
Qed.

Lemma parse_members_length fuel s l r :
  parse_members fuel s = Some (l, r) -> length r < length s.
Proof.
  intros H. apply (proj2 (proj2 (skip_of_parse fuel))) in H.
  now apply (proj2 (proj2 (skip_fuel_bound fuel))) in H.
Qed.

Lemma parse_string_length s str r : parse_string s = Some (str, r) -> length r < length s.
Proof.
  intros H. apply skip_string_of_parse in H.
  exact (skip_string_length_bounded _ _ _ (le_n _) H).
Qed.

(** The fuel [parse_value] needs is no more than the characters it takes. *)
Lemma parse_fuel_bound (fuel : nat) :
  (forall s v r, parse_value fuel s = Some (v, r) ->
                 forall f, length s - length r <= f -> parse_value f s = Some (v, r))
  /\ (forall s l r, parse_items fuel s = Some (l, r) ->
                    forall f, length s - length r <= f -> parse_items f s = Some (l, r))
  /\ (forall s l r, parse_members fuel s = Some (l, r) ->
                    forall f, length s - length r <= f -> parse_members f s = Some (l, r)).
Proof.
  induction fuel as [|fuel (IHv & IHi & IHm)].
  - repeat split; intros; discriminate.
  - split; [|split].
    + intros s v r H. pose proof (parse_value_length _ _ _ _ H) as Hl.
      cbn [parse_value] in H.
      pose proof (skip_ws_length s) as Hws.
      destruct (skip_ws s) as [|c t] eqn:Es; [discriminate H|]. simpl in Hws.
      destruct (is_num_start c) eqn:E1.
      { destruct (parse_number (c :: t)) as [[n rest]|] eqn:Hn; [|discriminate H].
        intros f Hf. reparse f. exact H. }
      destruct (ch dquote c) eqn:E2.
      { destruct (parse_string t) as [[str rest]|] eqn:Hs; [|discriminate H].
        intros f Hf. reparse f. exact H. }
      destruct (ch "[" c) eqn:E3.
      { pose proof (skip_ws_length t) as Hwt.
        destruct (skip_ws t) as [|c' t'] eqn:Et; [discriminate H|]. simpl in Hwt.
        destruct (ch "]" c') eqn:Ec.
        - intros f Hf. reparse f. exact H.
        - destruct (parse_items fuel t) as [[l rest]|] eqn:Hi; [|discriminate H].
          injection H as <- <-. intros f Hf. reparse f.
          rewrite (IHi _ _ _ Hi f) by lia. reflexivity. }
      destruct (ch "{" c) eqn:E4.
      { pose proof (skip_ws_length t) as Hwt.
        destruct (skip_ws t) as [|c' t'] eqn:Et; [discriminate H|]. simpl in Hwt.
        destruct (ch "}" c') eqn:Ec.
        - intros f Hf. reparse f. exact H.
        - destruct (parse_members fuel t) as [[l rest]|] eqn:Hm; [|discriminate H].
          injection H as <- <-. intros f Hf. reparse f.
          rewrite (IHm _ _ _ Hm f) by lia. reflexivity. }
      destruct (ch "n" c) eqn:E5.
      { destruct (expect (chars "ull") t) eqn:He; [|discriminate H].
        intros f Hf. reparse f. exact H. }
      destruct (ch "t" c) eqn:E6.
      { destruct (expect (chars "rue") t) eqn:He; [|discriminate H].
        intros f Hf. reparse f. exact H. }
      destruct (ch "f" c) eqn:E7; [|discriminate H].
      destruct (expect (chars "alse") t) eqn:He; [|discriminate H].
      intros f Hf. reparse f. exact H.
    + intros s l r H. pose proof (parse_items_length _ _ _ _ H) as Hl.
      rewrite parse_items_step in H.
      destruct (parse_value fuel s) as [[v t]|] eqn:Hv; [|discriminate H].
      pose proof (parse_value_length _ _ _ _ Hv) as Hlv.
      pose proof (skip_ws_length t) as Hwt.
      destruct (skip_ws t) as [|c t'] eqn:Et; [discriminate H|]. simpl in Hwt.
      destruct (ch "," c) eqn:E1.
      { destruct (parse_items fuel t') as [[l' rest]|] eqn:Hi; [|discriminate H].
        pose proof (parse_items_length _ _ _ _ Hi) as Hli.
        injection H as <- <-. intros f Hf. reparse f.
        rewrite (IHv _ _ _ Hv f) by lia. rewrite Et, E1.
        rewrite (IHi _ _ _ Hi f) by lia. reflexivity. }
      destruct (ch "]" c) eqn:E2; [|discriminate H].
      injection H as <- <-. intros f Hf. reparse f.
      rewrite (IHv _ _ _ Hv f) by lia. rewrite Et, E1, E2. reflexivity.
    + intros s l r H. pose proof (parse_members_length _ _ _ _ H) as Hl.
      cbn [parse_members] in H.
      pose proof (skip_ws_length s) as Hws.
      destruct (skip_ws s) as [|q r0] eqn:Es; [discriminate H|]. simpl in Hws.
      destruct (ch dquote q) eqn:E1; [|discriminate H].
      destruct (parse_string r0) as [[k r1]|] eqn:Hk; [|discriminate H].
      pose proof (parse_string_length _ _ _ Hk) as Hlk.
      pose proof (skip_ws_length r1) as Hw1.
      destruct (skip_ws r1) as [|colon r2] eqn:E1'; [discriminate H|]. simpl in Hw1.
      destruct (ch ":" colon) eqn:E2; [|discriminate H].
      destruct (parse_value fuel r2) as [[v r3]|] eqn:Hv; [|discriminate H].
      pose proof (parse_value_length _ _ _ _ Hv) as Hlv.
      pose proof (skip_ws_length r3) as Hw3.
      destruct (skip_ws r3) as [|c r4] eqn:E3; [discriminate H|]. simpl in Hw3.
      destruct (ch "," c) eqn:E4.
      { destruct (parse_members fuel r4) as [[l' rest]|] eqn:Hm; [|discriminate H].
        pose proof (parse_members_length _ _ _ _ Hm) as Hlm.
        injection H as <- <-. intros f Hf. reparse f.
        rewrite (IHv _ _ _ Hv f) by lia. rewrite E3, E4.
        rewrite (IHm _ _ _ Hm f) by lia. reflexivity. }
      destruct (ch "}" c) eqn:E5; [|discriminate H].
      injection H as <- <-. intros f Hf. reparse f.
      rewrite (IHv _ _ _ Hv f) by lia. rewrite E3, E4, E5. reflexivity.
Qed.

(** The fuel of [parse] is enough: the value the parser reads with any
    fuel, [parse] reads. *)
Lemma parse_fuel (fuel : nat) (text : string) (v : value) (r : list ascii) :
  parse_value fuel (chars text) = Some (v, r) -> skip_ws r = [] -> parse text = Some v.
Proof.
  intros H Hr. unfold parse. cbv zeta.
  rewrite (proj1 (parse_fuel_bound fuel) _ _ _ H (S (length (chars text)))) by lia.
  now rewrite Hr.
Qed.

End ParserFuel.

(** ** The runtime: what leaves the files alone *)

Section Frames.

Import Js.

Lemma keeps_fs_ret {A} (a : A) : keeps_fs (ret a).
Proof. intros w. reflexivity. Qed.

Lemma keeps_fs_throw {A} (e : Error) : keeps_fs (@throw A e).
Proof. intros w. reflexivity. Qed.

Lemma keeps_fs_bind {A B} (m : M A) (k : A -> M B) :
  keeps_fs m -> (forall a, keeps_fs (k a)) -> keeps_fs (bind m k).
Proof.
  intros Hm Hk w. unfold bind. specialize (Hm w).
  destruct (m w) as [[a|e] w1]; simpl in *; [|assumption].
  now rewrite (Hk a w1).
Qed.

Lemma keeps_fs_try_catch {A} (m : M A) (h : Error -> M A) :
  keeps_fs m -> (forall e, keeps_fs (h e)) -> keeps_fs (try_catch m h).
Proof.
  intros Hm Hh w. unfold try_catch. specialize (Hm w).
  destruct (m w) as [[a|e] w1]; simpl in *; [assumption|].
  now rewrite (Hh e w1).
Qed.

Lemma keeps_fs_external hre c : keeps_fs (external hre c).
Proof. intros w. unfold external. destruct (provider hre (events w) c); reflexivity. Qed.

Lemma keeps_fs_sleep ms : keeps_fs (sleep ms).
Proof. intros w. reflexivity. Qed.

Lemma silent_keeps_fs {A} (m : M A) : silent m -> keeps_fs m.
Proof. intros H w. now rewrite (H w). Qed.

Lemma silent_ret {A} (a : A) : silent (ret a).
Proof. intros w. reflexivity. Qed.

Lemma silent_throw {A} (e : Error) : silent (@throw A e).
Proof. intros w. reflexivity. Qed.

Lemma silent_bind {A B} (m : M A) (k : A -> M B) :
  silent m -> (forall a, silent (k a)) -> silent (bind m k).
Proof.
  intros Hm Hk w. unfold bind. specialize (Hm w).
  destruct (m w) as [[a|e] w1]; simpl in *; [|assumption].
  subst w1. apply Hk.
Qed.

Lemma silent_existsSync path : silent (existsSync path).
Proof. intros w. reflexivity. Qed.

Lemma silent_readFileSync path : silent (readFileSync path).
Proof. intros w. unfold readFileSync. destruct (fs w !! path); reflexivity. Qed.

Lemma silent_JSON_parse text : silent (JSON_parse text).
Proof. intros w. unfold JSON_parse. destruct (Json.parse text); reflexivity. Qed.

Lemma silent_get_property v key : silent (get_property v key).
Proof. intros w. destruct v; reflexivity. Qed.

Lemma silent_iterate v : silent (iterate v).
Proof. intros w. destruct v as [[]|]; reflexivity. Qed.

Lemma keeps_fs_for_range (body : nat -> M unit) :
  (forall c, keeps_fs (body c)) -> forall n c, keeps_fs (for_range n c body).
Proof.
  intros Hbody n. induction n as [|n IH]; intros c; simpl.
  - apply keeps_fs_ret.
  - apply keeps_fs_bind; [apply Hbody | intros _; apply IH].
Qed.

End Frames.

Create HintDb frame.
#[local] Hint Resolve keeps_fs_ret keeps_fs_throw
  keeps_fs_external keeps_fs_sleep silent_ret silent_throw silent_existsSync
  silent_readFileSync silent_JSON_parse silent_get_property silent_iterate : frame.

(** Goes through a script, bind by bind and branch by branch. *)
Ltac frame :=
  repeat first
    [ progress auto with frame
    | apply keeps_fs_bind; [|intros]
    | apply keeps_fs_try_catch; [|intros]
    | apply silent_bind; [|intros]
    | match goal with
      | |- Js.keeps_fs (if ?b then _ else _) => destruct b
      | |- Js.silent (if ?b then _ else _) => destruct b
      | |- Js.keeps_fs (match ?x with _ => _ end) => destruct x
      | |- Js.silent (match ?x with _ => _ end) => destruct x
      end ].

Section ScriptFrames.

Import Js.
Variable dirname : string.
Variable hre : HardhatRuntimeEnvironment.

Lemma get_keeps_fs address : keeps_fs (Paymaster.get dirname hre address).
Proof. unfold Paymaster.get. frame; apply silent_keeps_fs; frame. Qed.

Lemma network_info_silent : silent (Paymaster.network_info hre).
Proof. unfold Paymaster.network_info. frame. Qed.

Lemma network_info_keeps_fs : keeps_fs (Paymaster.network_info hre).
Proof. apply silent_keeps_fs, network_info_silent. Qed.

#[local] Hint Resolve get_keeps_fs network_info_keeps_fs : frame.

Lemma create_keeps_fs args : keeps_fs (Collection.create dirname hre args).
Proof. unfold Collection.create. frame. Qed.

Lemma enable_loop_keeps_fs limit giveUpAt paymaster target :
  keeps_fs (Collection.enable_loop hre limit giveUpAt paymaster target).
Proof.
  unfold Collection.enable_loop, for_upto.
  apply keeps_fs_for_range. intros c. frame.
Qed.

End ScriptFrames.

(** ** The keys of the records *)

Section Keys.

Import Js.

Lemma slash_free_app (a b : string) :
  JsString.slash_free (a +:+ b) = JsString.slash_free a && JsString.slash_free b.
Proof. apply all_app. Qed.

Lemma collection_file_name (sym a n : string) :
  JsString.slash_free sym = true -> JsString.slash_free a = true ->
  JsString.slash_free n = true ->
  Path.file_name ("collection." +:+ sym +:+ "." +:+ a +:+ "." +:+ n +:+ ".json").
Proof.
  intros Hs Ha Hn. repeat split; try discriminate.
  change ("collection." +:+ sym +:+ "." +:+ a +:+ "." +:+ n +:+ ".json")
    with ("collection." +:+ (sym +:+ "." +:+ (a +:+ "." +:+ (n +:+ ".json")))).
  rewrite !slash_free_app, Hs, Ha, Hn. reflexivity.
Qed.

Lemma paymaster_file_name (n : string) :
  JsString.slash_free n = true -> Path.file_name ("paymaster." +:+ n +:+ ".json").
Proof.
  intros Hn. repeat split; try discriminate.
  change ("paymaster." +:+ n +:+ ".json") with ("paymaster." +:+ (n +:+ ".json")).
  rewrite !slash_free_app, Hn. reflexivity.
Qed.

(** The name of a collection's record tells the symbol, the address and
    the network, when the last two hold no ["."]. *)
Lemma collection_file_name_inj (sym sym' a a' n n' : string) :
  JsString.dot_free a = true -> JsString.dot_free a' = true ->
  JsString.dot_free n = true -> JsString.dot_free n' = true ->
  "collection." +:+ sym +:+ "." +:+ a +:+ "." +:+ n +:+ ".json"
  = "collection." +:+ sym' +:+ "." +:+ a' +:+ "." +:+ n' +:+ ".json" ->
  sym = sym' /\ a = a' /\ n = n'.
Proof.
  intros Da Da' Dn Dn' H.
  apply (string_app_inv_head "collection.") in H.
  assert (Hassoc : forall s b m : string,
             s +:+ "." +:+ b +:+ "." +:+ m +:+ ".json"
             = ((s +:+ String "." b) +:+ String "." m) +:+ ".json").
  { intros s b m. rewrite !string_app_assoc. reflexivity. }
  rewrite !Hassoc in H.
  apply string_app_inv_tail in H.
  apply dot_cut in H as [H ->]; [|assumption..].
  apply dot_cut in H as [-> ->]; [|assumption..].
  auto.
Qed.

Lemma plain_parts (s : string) :
  JsString.plain s = true -> JsString.slash_free s = true /\ JsString.dot_free s = true.
Proof. unfold JsString.plain. intros H. now apply andb_prop in H. Qed.

(** The key of a collection's record tells the symbol, the address and the
    network. *)
Lemma collection_key_inj
    (dirname : string) (hre hre' : HardhatRuntimeEnvironment) (sym sym' a a' : string) :
  JsString.slash_free sym = true -> JsString.slash_free sym' = true ->
  JsString.plain a = true -> JsString.plain a' = true ->
  JsString.plain (network_name hre) = true -> JsString.plain (network_name hre') = true ->
  Collection.getPath dirname hre sym a = Collection.getPath dirname hre' sym' a' ->
  sym = sym' /\ a = a' /\ network_name hre = network_name hre'.
Proof.
  intros Hs Hs' Ha Ha' Hn Hn' H.
  apply plain_parts in Ha as [Sa Da], Ha' as [Sa' Da'], Hn as [Sn Dn], Hn' as [Sn' Dn'].
  unfold Collection.getPath in H.
  apply join_parent_file_inj in H; [|now apply collection_file_name..].
  apply collection_file_name_inj in H; tauto.
Qed.

(** C2, as amended: the records of two collection deployments that differ
    in the symbol, the resulting address or the network are written at
    distinct paths (for a symbol without ["/"], an address and a network
    name without ["/"] and ["."]), and never at the path of a paymaster
    record.  A paymaster record is keyed by the network alone: two paymaster
    deployments are written at distinct paths exactly when their networks
    differ. *)
Theorem distinct_deployments_distinct_keys
    (dirname : string) (hre hre' : HardhatRuntimeEnvironment) (sym sym' a a' : string) :
  JsString.slash_free sym = true -> JsString.slash_free sym' = true ->
  JsString.plain a = true -> JsString.plain a' = true ->
  JsString.plain (network_name hre) = true -> JsString.plain (network_name hre') = true ->
  (Collection.getPath dirname hre sym a = Collection.getPath dirname hre' sym' a' ->
   sym = sym' /\ a = a' /\ network_name hre = network_name hre')
  /\ (Paymaster.getPath dirname hre = Paymaster.getPath dirname hre' <->
      network_name hre = network_name hre')
  /\ Paymaster.getPath dirname hre <> Collection.getPath dirname hre' sym' a'.
Proof.
  intros Hs Hs' Ha Ha' Hn Hn'. split; [|split].
  - now apply collection_key_inj.
  - apply plain_parts in Hn as [Sn _], Hn' as [Sn' _].
    unfold Paymaster.getPath. split.
    + intros H. apply join_parent_file_inj in H; [|now apply paymaster_file_name..].
      apply (string_app_inv_head "paymaster.") in H.
      now apply string_app_inv_tail in H.
    + intros H. now rewrite H.
  - apply plain_parts in Ha' as [Sa' _], Hn as [Sn _], Hn' as [Sn' _].
    unfold Collection.getPath, Paymaster.getPath.
    intros H. apply join_parent_file_inj in H;
      [discriminate H | now apply paymaster_file_name | now apply collection_file_name].
Qed.

Lemma distinct_deployments_distinct_keys_witness :
  let hre := Scenario.goerli Scenario.two_addresses in
  (Collection.getPath Scenario.scripts hre "SYM" "0xAAA"
   = Collection.getPath Scenario.scripts hre "SYM" "0xBBB" ->
   "SYM" = "SYM" /\ "0xAAA" = "0xBBB" /\ "goerli" = "goerli")
  /\ (Paymaster.getPath Scenario.scripts hre = Paymaster.getPath Scenario.scripts hre <->
      "goerli" = "goerli")
  /\ Paymaster.getPath Scenario.scripts hre
     <> Collection.getPath Scenario.scripts hre "SYM" "0xBBB".
Proof.
  cbv zeta.
  apply (distinct_deployments_distinct_keys Scenario.scripts
           (Scenario.goerli Scenario.two_addresses) (Scenario.goerli Scenario.two_addresses)
           "SYM" "SYM" "0xAAA" "0xBBB"); reflexivity.
Defined.

(** C2 as stated fails: two paymaster deployments on one network, created
    at different addresses, are written at the same path, and the second
    record replaces the first. *)
Lemma second_paymaster_overwrites_first :
  let hre := Scenario.goerli Scenario.two_addresses in
  let w1 := snd (Paymaster.deploy_paymaster Scenario.scripts hre false Scenario.empty_world) in
  let w2 := snd (Paymaster.deploy_paymaster Scenario.scripts hre false w1) in
  let record address :=
    Json.stringify
      (Paymaster.output_json
         {| Paymaster.out_address := address;
            Paymaster.out_constructorArguments := ("0xHub", "0xForwarder") |}) in
  Paymaster.getPath Scenario.scripts hre = "/repo/paymaster.goerli.json"
  /\ fs w1 !! "/repo/paymaster.goerli.json" = Some (record "0xAAA")
  /\ fs w2 !! "/repo/paymaster.goerli.json" = Some (record "0xBBB")
  /\ record "0xAAA" <> record "0xBBB".
Proof.
  cbv zeta. repeat split; try (vm_compute; reflexivity).
  intros H. vm_compute in H. discriminate H.
Qed.

(** C3, as amended: a key is a function of what its script puts in the
    file name: symbol, address and network for a collection, the network
    alone for a paymaster (the same network name gives the same keys).
    For a symbol, an address and a network name without ["/"], changing one
    of the three changes the collection key, changing the network changes
    the paymaster key, and the key of a paymaster is the key of no
    collection. *)
Theorem key_changes_with_each_input
    (dirname : string) (hre hre' : HardhatRuntimeEnvironment) (sym sym' a a' : string) :
  JsString.slash_free sym = true -> JsString.slash_free sym' = true ->
  JsString.slash_free a = true -> JsString.slash_free a' = true ->
  JsString.slash_free (network_name hre) = true ->
  JsString.slash_free (network_name hre') = true ->
  (network_name hre = network_name hre' ->
   Collection.getPath dirname hre sym a = Collection.getPath dirname hre' sym a
   /\ Paymaster.getPath dirname hre = Paymaster.getPath dirname hre')
  /\ (sym <> sym' ->
      Collection.getPath dirname hre sym a <> Collection.getPath dirname hre sym' a)
  /\ (a <> a' ->
      Collection.getPath dirname hre sym a <> Collection.getPath dirname hre sym a')
  /\ (network_name hre <> network_name hre' ->
      Collection.getPath dirname hre sym a <> Collection.getPath dirname hre' sym a
      /\ Paymaster.getPath dirname hre <> Paymaster.getPath dirname hre')
  /\ Paymaster.getPath dirname hre <> Collection.getPath dirname hre sym a.
Proof.
  intros Hs Hs' Ha Ha' Hn Hn'.
  unfold Collection.getPath, Paymaster.getPath. split; [|split; [|split; [|split]]].
  - intros H. now rewrite H.
  - intros H E. apply H. apply join_parent_file_inj in E; [|now apply collection_file_name..].
    apply (string_app_inv_head "collection.") in E.
    now apply string_app_inv_tail in E.
  - intros H E. apply H. apply join_parent_file_inj in E; [|now apply collection_file_name..].
    rewrite <- !(string_app_assoc "collection.") in E.
    rewrite <- !(string_app_assoc ("collection." +:+ sym)) in E.
    apply string_app_inv_head in E. now apply string_app_inv_tail in E.
  - intros H. split; intros E; apply H.
    + apply join_parent_file_inj in E; [|now apply collection_file_name..].
      rewrite <- !(string_app_assoc "collection.") in E.
      rewrite <- !(string_app_assoc ("collection." +:+ sym)) in E.
      rewrite <- !(string_app_assoc (("collection." +:+ sym) +:+ ".")) in E.
      rewrite <- !(string_app_assoc ((("collection." +:+ sym) +:+ ".") +:+ a)) in E.
      apply string_app_inv_head in E. now apply string_app_inv_tail in E.
    + apply join_parent_file_inj in E; [|now apply paymaster_file_name..].
      apply (string_app_inv_head "paymaster.") in E.
      now apply string_app_inv_tail in E.
  - intros E. apply join_parent_file_inj in E;
      [discriminate E | now apply paymaster_file_name | now apply collection_file_name].
Qed.

End Keys.

Section KeyRuns.

Import Js.

Lemma key_changes_with_each_input_witness :
  let hre := Scenario.goerli Scenario.two_addresses in
  "0xAAA" <> "0xBBB"
  /\ Collection.getPath Scenario.scripts hre "SYM" "0xAAA"
     <> Collection.getPath Scenario.scripts hre "SYM" "0xBBB".
Proof.
  cbv zeta. split; [discriminate|].
  apply (key_changes_with_each_input Scenario.scripts
           (Scenario.goerli Scenario.two_addresses) (Scenario.goerli Scenario.two_addresses)
           "SYM" "SYM" "0xAAA" "0xBBB"); try reflexivity.
  discriminate.
Defined.

(** C3 as stated fails: the paymaster key does not change with the address
    (a paymaster created at [0xAAA] and one created at [0xBBB] are recorded
    at the same path), and the collection key does not tell ["a//b"] from
    ["a/b"], which [path.join] normalizes alike. *)
Lemma key_unchanged_by_address :
  let path := "/repo/paymaster.goerli.json" in
  let run address :=
    snd (Paymaster.deploy_paymaster Scenario.scripts
           (Scenario.goerli (Scenario.enable_fails address)) false Scenario.empty_world) in
  let hre := Scenario.goerli Scenario.two_addresses in
  (is_Some (fs (run "0xAAA") !! path) /\ is_Some (fs (run "0xBBB") !! path)
   /\ fs (run "0xAAA") !! path <> fs (run "0xBBB") !! path)
  /\ ("a//b" <> "a/b"
      /\ Collection.getPath Scenario.scripts hre "a//b" "0xAAA"
         = Collection.getPath Scenario.scripts hre "a/b" "0xAAA").
Proof.
  cbv zeta. split; [split; [|split] | split].
  - vm_compute. eauto.
  - vm_compute. eauto.
  - intros H. vm_compute in H. discriminate H.
  - discriminate.
  - vm_compute. reflexivity.
Qed.

End KeyRuns.

(** ** Writing a record and reading it back *)

Section RoundTrip.

Import Js.

Lemma read_after_write (path text : string) (w : world) :
  readFileSync path (snd (writeFileSync path text w))
  = (Returned text, snd (writeFileSync path text w)).
Proof. unfold readFileSync, writeFileSync. simpl. now rewrite lookup_insert_eq. Qed.

Lemma parse_after_write (path : string) (v : Json.value) (w : world) :
  bind (readFileSync path) JSON_parse (snd (writeFileSync path (Json.stringify v) w))
  = (Returned v, snd (writeFileSync path (Json.stringify v) w)).
Proof.
  unfold bind. rewrite read_after_write. unfold JSON_parse.
  now rewrite parse_stringify.
Qed.

(** [load] on a file that holds the text of [v]. *)
Lemma load_of_record (path : string) (v : Json.value) (w : world) :
  fs w !! path = Some (Json.stringify v) -> v <> Json.JNull ->
  Collection.load path w
  = (Returned (property v "address", property v "constructorArguments"), w).
Proof.
  intros Hfile Hv. unfold Collection.load, bind, readFileSync, JSON_parse.
  rewrite Hfile, parse_stringify. destruct v; try reflexivity. congruence.
Qed.

Lemma lookup_after_write (path text : string) (w : world) :
  fs (snd (writeFileSync path text w)) !! path = Some text.
Proof. simpl. apply lookup_insert_eq. Qed.

End RoundTrip.

(** ** Loading the paymaster's record *)

Section Loading.

Import Js.




End Loading.

(** ** The guards of [deploy] *)

Section Guards.

Import Js.

(** C8: a [deploy] without a required parameter throws its configuration
    error in the world it was called in: no request has gone to the chain
    and no file has been written.  So does the task [deploy-paymaster] when
    the configuration of the network lacks one of the two addresses. *)
Theorem deploy_fails_fast_on_missing_parameter
    (dirname : string) (hre : HardhatRuntimeEnvironment) (w : world) :
  (forall relay forwarder,
      JsString.falsy relay || JsString.falsy forwarder = true ->
      Paymaster.deploy hre relay forwarder w
      = (Thrown (error (if JsString.falsy relay then "Relay hub address is required"
                        else "GSN trusted forwarder address is required")), w))
  /\ (forall args,
         JsString.falsy (Collection.collectionSymbol args)
         || Z.eqb (Collection.collectionSupplyCap args) 0
         || JsString.falsy (Collection.contractMetadataUri args) = true ->
         Collection.deploy dirname hre args w
         = (Thrown (error (if JsString.falsy (Collection.collectionSymbol args)
                           then "collectionSymbol is required"
                           else if Z.eqb (Collection.collectionSupplyCap args) 0
                                then "collectionSupplyCap is required"
                                else "contractMetadataUri is required")), w))
  /\ (forall info doVerify,
         paymasterInfo hre !! network_name hre = Some info ->
         JsString.falsy (RELAY_HUB_ADDRESS info)
         || JsString.falsy (GSN_TRUSTED_FORWARDER_ADDRESS info) = true ->
         Paymaster.deploy_paymaster dirname hre doVerify w
         = (Thrown (error (if JsString.falsy (RELAY_HUB_ADDRESS info)
                           then "Relay hub address is required"
                           else "GSN trusted forwarder address is required")), w)).
Proof.
  assert (Hdeploy : forall relay forwarder,
             JsString.falsy relay || JsString.falsy forwarder = true ->
             Paymaster.deploy hre relay forwarder w
             = (Thrown (error (if JsString.falsy relay then "Relay hub address is required"
                               else "GSN trusted forwarder address is required")), w)).
  { intros relay forwarder H. unfold Paymaster.deploy.
    destruct (JsString.falsy relay); [reflexivity|].
    destruct (JsString.falsy forwarder); [reflexivity | discriminate H]. }
  split; [exact Hdeploy | split].
  - intros args H.
    unfold Collection.deploy, Collection.deploy_with, Collection.create, bind.
    destruct (JsString.falsy (Collection.collectionSymbol args)); [reflexivity|].
    destruct (Z.eqb (Collection.collectionSupplyCap args) 0); [reflexivity|].
    destruct (JsString.falsy (Collection.contractMetadataUri args));
      [reflexivity | discriminate H].
  - intros info doVerify Hinfo H.
    unfold Paymaster.deploy_paymaster, Paymaster.network_info, bind.
    rewrite Hinfo. cbn [ret]. now rewrite (Hdeploy _ _ H).
Qed.

Lemma deploy_fails_fast_on_missing_parameter_witness :
  let hre := Scenario.goerli Scenario.two_addresses in
  Paymaster.deploy hre "" "0xForwarder" Scenario.empty_world
  = (Thrown (error "Relay hub address is required"), Scenario.empty_world)
  /\ Collection.deploy Scenario.scripts hre
       {| Collection.collectionName := "Name";
          Collection.collectionSymbol := "SYM";
          Collection.collectionSupplyCap := 0;
          Collection.contractMetadataUri := "uri";
          Collection.metadataProofHash := None;
          Collection.paymaster := None;
          Collection.forwarderAddress := None |} Scenario.empty_world
     = (Thrown (error "collectionSupplyCap is required"), Scenario.empty_world).
Proof.
  cbv zeta. split.
  - apply (deploy_fails_fast_on_missing_parameter Scenario.scripts
             (Scenario.goerli Scenario.two_addresses) Scenario.empty_world).
    reflexivity.
  - apply (deploy_fails_fast_on_missing_parameter Scenario.scripts
             (Scenario.goerli Scenario.two_addresses) Scenario.empty_world).
    reflexivity.
Defined.

(** A [create] that returns has passed the guards. *)
Lemma create_guards dirname hre args w created w1 :
  Collection.create dirname hre args w = (Returned created, w1) ->
  JsString.falsy (Collection.collectionSymbol args) = false
  /\ Z.eqb (Collection.collectionSupplyCap args) 0 = false
  /\ JsString.falsy (Collection.contractMetadataUri args) = false.
Proof.
  unfold Collection.create.
  destruct (JsString.falsy (Collection.collectionSymbol args)); [discriminate|].
  destruct (Z.eqb (Collection.collectionSupplyCap args) 0); [discriminate|].
  destruct (JsString.falsy (Collection.contractMetadataUri args)); [discriminate|].
  auto.
Qed.

End Guards.

(** ** Verification *)

Section Verification.

Import Js.

(** The paymaster's [verify] takes "already verified" for a success and
    lets every other failure of the service through. *)
Lemma paymaster_verify_normalizes hre address relay forwarder w e :
  Json.falsy (Some relay) = false -> Json.falsy (Some forwarder) = false ->
  provider hre (events w)
    (RunVerify address (Some (Json.JArr [relay; forwarder]))) = Fails e ->
  fst (Paymaster.verify hre address (Some (Json.JArr [relay; forwarder])) w)
  = if JsString.includes "Reason: Already Verified" (message e)
    then Returned tt else Thrown e.
Proof.
  intros Hr Hf He. unfold Paymaster.verify, bind, try_catch, external. cbn.
  cbn in Hr, Hf. rewrite Hr, Hf. cbn. rewrite He.
  destruct (JsString.includes _ (message e)); reflexivity.
Qed.

(** The collection's [verify] lets every failure of the service through. *)
Lemma collection_verify_propagates hre address name sym cap hash uri forwarder w e :
  Json.falsy (Some address) = false ->
  Json.falsy (Some sym) = false -> Json.falsy (Some cap) = false ->
  Json.falsy (Some uri) = false -> Json.falsy (Some forwarder) = false ->
  Json.falsy (Some name) = false -> Json.falsy (Some hash) = false ->
  provider hre (events w)
    (RunVerify (Some address)
       (Some (Json.JArr [name; sym; cap; hash; uri; forwarder]))) = Fails e ->
  fst (Collection.verify hre (Some address)
         (Some (Json.JArr [name; sym; cap; hash; uri; forwarder])) w)
  = Thrown e.
Proof.
  intros Ha Hs Hc Hu Hf Hn Hh He.
  unfold Collection.verify, bind, external. cbn.
  cbn in Ha, Hs, Hc, Hu, Hf, Hn, Hh. rewrite Ha, Hs, Hc, Hu, Hf, Hn, Hh. cbn.
  unfold array_literal. cbn. rewrite He. reflexivity.
Qed.

(** C6, on the code: when the service answers "already verified", the
    paymaster's [verify] returns and the collection's [verify] throws. *)
Theorem collection_verify_rejects_already_verified :
  let hre := Scenario.goerli Scenario.already_verified in
  let already :=
    error "Contract source code already verified. Reason: Already Verified" in
  fst (Paymaster.verify hre (Some (Json.JStr "0xABC"))
         (Some (Json.JArr [Json.JStr "0xHub"; Json.JStr "0xForwarder"]))
         Scenario.empty_world)
  = Returned tt
  /\ fst (Collection.verify hre (Some (Json.JStr "0xABC"))
            (Some (Json.JArr [Json.JStr "Name"; Json.JStr "SYM"; Json.JNum 1000;
                              Json.JStr "hash"; Json.JStr "uri";
                              Json.JStr "0xForwarder"]))
            Scenario.empty_world)
     = Thrown already.
Proof.
  cbv zeta. split.
  - rewrite (paymaster_verify_normalizes _ _ _ _ _
               (error "Contract source code already verified. Reason: Already Verified"));
      reflexivity.
  - apply collection_verify_propagates; reflexivity.
Qed.

End Verification.

(** ** The loop around [enableContract] *)

Section EnableLoop.

Import Js.

Lemma sleeps_app (l1 l2 : list event) : sleeps (l1 ++ l2) = sleeps l1 ++ sleeps l2.
Proof.
  induction l1 as [|[c|ms] l1 IH]; simpl; [reflexivity | exact IH | now rewrite IH].
Qed.

Lemma enable_calls_app (l1 l2 : list event) :
  enable_calls (l1 ++ l2) = enable_calls l1 + enable_calls l2.
Proof.
  induction l1 as [|[[]|ms] l1 IH]; simpl; try exact IH; [reflexivity | now rewrite IH].
Qed.

(** The loop of the source, [for (let c = 1; c < 2; c++)] with
    [if (c === 5) throw e], in full: one attempt and, when it fails, one
    sleep of a second; it returns in every case. *)
Lemma enable_loop_once hre paymaster target w :
  let enable := EnableContract (address paymaster) target in
  let wait := TxWait (address paymaster) target in
  let w1 := record_event (Called enable) w in
  let w2 := record_event (Called wait) w1 in
  Collection.enable_loop hre 2 5 paymaster target w
  = match provider hre (events w) enable with
    | Fails _ => (Returned tt, record_event (Slept 1000) w1)
    | Gives _ =>
        match provider hre (events w1) wait with
        | Fails _ => (Returned tt, record_event (Slept 1000) w2)
        | Gives _ => (Returned tt, w2)
        end
    end.
Proof.
  cbv zeta. unfold Collection.enable_loop, for_upto. cbn [Nat.sub for_range].
  unfold bind, try_catch, external.
  destruct (provider hre (events w) _); [reflexivity|].
  cbn. destruct (provider hre _ _); reflexivity.
Qed.

(** The loop of the source always returns, after one call of
    [enableContract]. *)
Lemma enable_loop_returns hre paymaster target w :
  let run := Collection.enable_loop hre 2 5 paymaster target w in
  fst run = Returned tt
  /\ enable_calls (events (snd run)) = enable_calls (events w) + 1.
Proof.
  cbv zeta. rewrite enable_loop_once.
  destruct (provider hre (events w) _); [|destruct (provider hre _ _)];
    cbn; rewrite ?enable_calls_app; cbn; split; try reflexivity; lia.
Qed.

(** The loop of the source sleeps at most once, for one second. *)
Lemma enable_loop_sleeps hre paymaster target w :
  let run := Collection.enable_loop hre 2 5 paymaster target w in
  sleeps (events (snd run)) = sleeps (events w)
  \/ sleeps (events (snd run)) = sleeps (events w) ++ [1000%Z].
Proof.
  cbv zeta. rewrite enable_loop_once.
  destruct (provider hre (events w) _); [|destruct (provider hre _ _)];
    cbn; rewrite ?sleeps_app; cbn; rewrite ?app_nil_r; auto.
Qed.

(** The deployment of the scenario, on a chain whose [enableContract] fails
    each time: [deploy] returns, after one call and one sleep. *)
Example deploy_swallows_enable_failure :
  let run :=
    Collection.deploy Scenario.scripts (Scenario.goerli (Scenario.enable_fails "0xABC"))
      (Scenario.sym_args "Name" (Some "hash")) Scenario.empty_world in
  fst run = Returned ("/repo/collection.SYM.0xABC.goerli.json", "0xABC")
  /\ enable_calls (events (snd run)) = 1
  /\ sleeps (events (snd run)) = [1000%Z].
Proof. cbv zeta. vm_compute. auto. Qed.

(** The same deployment with the loop bounds the spec describes
    ([c < 6], giving up at [c === 5]): five calls, four sleeps, and the
    error of the fifth call reaches the caller. *)
Example five_attempts_with_bound_six :
  let run :=
    Collection.deploy_with Scenario.scripts (Scenario.goerli (Scenario.enable_fails "0xABC"))
      6 5 (Scenario.sym_args "Name" (Some "hash")) Scenario.empty_world in
  fst run = Thrown (error "network timeout")
  /\ enable_calls (events (snd run)) = 5
  /\ sleeps (events (snd run)) = [1000%Z; 2000%Z; 3000%Z; 4000%Z].
Proof. cbv zeta. vm_compute. auto. Qed.

(** What [deploy] leaves on disk once the contract is created. *)
Lemma deploy_with_fs dirname hre limit giveUpAt args w paymaster forwarder target w1 :
  Collection.create dirname hre args w = (Returned (paymaster, forwarder, target), w1) ->
  fs (snd (Collection.deploy_with dirname hre limit giveUpAt args w))
  = <[Collection.getPath dirname hre (Collection.collectionSymbol args) target :=
        Json.stringify (Collection.record_of args forwarder target)]> (fs w).
Proof.
  intros Hcreate.
  pose proof (create_keeps_fs dirname hre args w) as Hfs. rewrite Hcreate in Hfs.
  simpl in Hfs. rewrite <- Hfs.
  unfold Collection.deploy_with, bind. rewrite Hcreate.
  unfold Collection.record_and_enable, bind. cbn [writeFileSync].
  match goal with
  | |- context [Collection.enable_loop hre limit giveUpAt paymaster target ?w2] =>
      pose proof (enable_loop_keeps_fs hre limit giveUpAt paymaster target w2) as Hloop;
      destruct (Collection.enable_loop hre limit giveUpAt paymaster target w2)
        as [[[]|e] w3]
  end; exact Hloop.
Qed.

(** C9: once the collection is created and its record written, the enable
    step -- however its loop is bounded and however it ends, by a return or
    by an error that reaches the caller -- leaves the file system with that
    record at its key and every other file as before [deploy]. *)
Theorem enable_failure_keeps_record
    dirname hre limit giveUpAt args w paymaster forwarder target w1 :
  Collection.create dirname hre args w = (Returned (paymaster, forwarder, target), w1) ->
  let path := Collection.getPath dirname hre (Collection.collectionSymbol args) target in
  let run := Collection.deploy_with dirname hre limit giveUpAt args w in
  fs (snd run) !! path = Some (Json.stringify (Collection.record_of args forwarder target))
  /\ forall other, other <> path -> fs (snd run) !! other = fs w !! other.
Proof.
  intros Hcreate path run. unfold run.
  rewrite (deploy_with_fs _ _ _ _ _ _ _ _ _ _ Hcreate). fold path. split.
  - apply lookup_insert_eq.
  - intros other Hother. now apply lookup_insert_ne.
Qed.

Lemma enable_failure_keeps_record_witness :
  let hre := Scenario.goerli (Scenario.enable_fails "0xABC") in
  let args := Scenario.sym_args "Name" (Some "hash") in
  let path := "/repo/collection.SYM.0xABC.goerli.json" in
  (let run := Collection.deploy Scenario.scripts hre args Scenario.empty_world in
   fs (snd run) !! path
   = Some (Json.stringify (Collection.record_of args "0xForwarder" "0xABC"))
   /\ forall other, other <> path -> fs (snd run) !! other = None)
  /\ (let run := Collection.deploy_with Scenario.scripts hre 6 5 args Scenario.empty_world in
      fst run = Thrown (error "network timeout")
      /\ fs (snd run) !! path
         = Some (Json.stringify (Collection.record_of args "0xForwarder" "0xABC"))).
Proof.
  cbv zeta. split; [|split].
  - exact (enable_failure_keeps_record Scenario.scripts
             (Scenario.goerli (Scenario.enable_fails "0xABC")) 2 5
             (Scenario.sym_args "Name" (Some "hash")) Scenario.empty_world
             Scenario.a_paymaster "0xForwarder" "0xABC" _ eq_refl).
  - vm_compute. reflexivity.
  - exact (proj1 (enable_failure_keeps_record Scenario.scripts
             (Scenario.goerli (Scenario.enable_fails "0xABC")) 6 5
             (Scenario.sym_args "Name" (Some "hash")) Scenario.empty_world
             Scenario.a_paymaster "0xForwarder" "0xABC" _ eq_refl)).
Defined.

End EnableLoop.

(** ** A record without [metadataProofHash] *)

Section ProofHash.

Import Js.

(** C10, as amended: a collection deployed without [metadataProofHash] is
    recorded with the empty string as [metadataProofHash], in the
    descriptive field and as the fourth constructor argument.  Wherever
    that record is read later, [verify] on it throws an "is required"
    error in the world it was called in, so before the external
    verification call; the error is "metadataProofHash is required" when
    the address, the forwarder address and the collection name of the
    record are non-empty, and names the first empty one of them (in the
    order of the guards) otherwise. *)
Theorem unhashed_record_cannot_be_verified
    dirname hre args w paymaster forwarder target w1 :
  Collection.metadataProofHash args = None ->
  Collection.create dirname hre args w = (Returned (paymaster, forwarder, target), w1) ->
  let path := Collection.getPath dirname hre (Collection.collectionSymbol args) target in
  let w' := snd (Collection.deploy dirname hre args w) in
  let record := Collection.record_of args forwarder target in
  fs w' !! path = Some (Json.stringify record)
  /\ property record "metadataProofHash" = Some (Json.JStr "")
  /\ property record "constructorArguments"
     = Some (Json.JArr [Json.JStr (Collection.collectionName args);
                        Json.JStr (Collection.collectionSymbol args);
                        Json.JNum (Collection.collectionSupplyCap args);
                        Json.JStr "";
                        Json.JStr (Collection.contractMetadataUri args);
                        Json.JStr forwarder])
  /\ forall hre2 w2,
       fs w2 !! path = fs w' !! path ->
       exists msg,
         Collection.verify_collection hre2 path w2 = (Thrown (error msg), w2)
         /\ msg = (if JsString.falsy target then "address is required"
                   else if JsString.falsy forwarder then "forwarderAddress is required"
                   else if JsString.falsy (Collection.collectionName args)
                        then "collectionName is required"
                        else "metadataProofHash is required").
Proof.
  intros Hhash Hcreate path w' record.
  destruct (create_guards _ _ _ _ _ _ Hcreate) as (Hsym & Hcap & Huri).
  assert (Hfile : fs w' !! path = Some (Json.stringify record)).
  { unfold w', Collection.deploy.
    rewrite (deploy_with_fs _ _ _ _ _ _ _ _ _ _ Hcreate). apply lookup_insert_eq. }
  assert (Hrec : record
                 = Collection.outputObj target (Collection.collectionName args)
                     (Collection.collectionSymbol args)
                     (Collection.collectionSupplyCap args) ""
                     (Collection.contractMetadataUri args) forwarder).
  { unfold record, Collection.record_of. now rewrite Hhash. }
  clearbody record w'. subst record.
  split; [exact Hfile | split; [reflexivity | split; [reflexivity|]]].
  intros hre2 w2 Hsame. rewrite Hfile in Hsame.
  unfold Collection.verify_collection, bind.
  rewrite (load_of_record path _ w2 Hsame) by discriminate.
  change (property (Collection.outputObj _ _ _ _ _ _ _) "address")
    with (Some (Json.JStr target)).
  change (property (Collection.outputObj _ _ _ _ _ _ _) "constructorArguments")
    with (Some (Json.JArr [Json.JStr (Collection.collectionName args);
                           Json.JStr (Collection.collectionSymbol args);
                           Json.JNum (Collection.collectionSupplyCap args);
                           Json.JStr "";
                           Json.JStr (Collection.contractMetadataUri args);
                           Json.JStr forwarder])).
  unfold Collection.verify, bind. cbn -[JsString.falsy Z.eqb].
  destruct (JsString.falsy target); [eexists; split; reflexivity|].
  rewrite Hsym, Hcap, Huri.
  destruct (JsString.falsy forwarder); [eexists; split; reflexivity|].
  destruct (JsString.falsy (Collection.collectionName args)); eexists; split; reflexivity.
Qed.

Lemma unhashed_record_cannot_be_verified_witness :
  let hre := Scenario.goerli (Scenario.enable_fails "0xABC") in
  let args := Scenario.sym_args "Name" None in
  let w' := snd (Collection.deploy Scenario.scripts hre args Scenario.empty_world) in
  exists msg,
    Collection.verify_collection hre "/repo/collection.SYM.0xABC.goerli.json" w'
    = (Thrown (error msg), w')
    /\ msg = "metadataProofHash is required".
Proof.
  cbv zeta.
  exact (proj2 (proj2 (proj2
           (unhashed_record_cannot_be_verified Scenario.scripts
              (Scenario.goerli (Scenario.enable_fails "0xABC"))
              (Scenario.sym_args "Name" None) Scenario.empty_world
              Scenario.a_paymaster "0xForwarder" "0xABC" _ eq_refl eq_refl)))
           (Scenario.goerli (Scenario.enable_fails "0xABC")) _ eq_refl).
Defined.

(** C10 as stated fails: [deploy] does not ask for a collection name, and
    [verify] asks for it before the proof hash; the record of a collection
    deployed with an empty name and no [metadataProofHash] is refused with
    "collectionName is required". *)
Lemma unnamed_record_fails_on_its_name :
  let hre := Scenario.goerli (Scenario.enable_fails "0xABC") in
  let run := Collection.deploy Scenario.scripts hre (Scenario.sym_args "" None)
               Scenario.empty_world in
  fst run = Returned ("/repo/collection.SYM.0xABC.goerli.json", "0xABC")
  /\ fst (Collection.verify_collection hre "/repo/collection.SYM.0xABC.goerli.json" (snd run))
     = Thrown (error "collectionName is required")
  /\ error "collectionName is required" <> error "metadataProofHash is required".
Proof.
  cbv zeta. split; [|split].
  - vm_compute. reflexivity.
  - vm_compute. reflexivity.
  - discriminate.
Qed.

End ProofHash.

(** ** [deploy], from the created contract on *)

Section Deployed.

Import Js.

(** C1, on the code: once the contract is created, [deploy] returns its
    path and address whatever the provider answers to the enable step.  It
    calls [enableContract] once, not five times, and no error of that call
    reaches the caller of [deploy]. *)
Theorem deploy_returns_whatever_enable_does
    dirname hre args w paymaster forwarder target w1 :
  Collection.create dirname hre args w = (Returned (paymaster, forwarder, target), w1) ->
  let run := Collection.deploy dirname hre args w in
  fst run
  = Returned (Collection.getPath dirname hre (Collection.collectionSymbol args) target, target)
  /\ enable_calls (events (snd run)) = enable_calls (events w1) + 1.
Proof.
  intros Hcreate. cbv zeta.
  unfold Collection.deploy, Collection.deploy_with, bind. rewrite Hcreate.
  unfold Collection.record_and_enable, bind. cbn [writeFileSync].
  match goal with
  | |- context [Collection.enable_loop hre 2 5 paymaster target ?w2] =>
      pose proof (enable_loop_returns hre paymaster target w2) as [Hret Hcalls];
      destruct (Collection.enable_loop hre 2 5 paymaster target w2) as [[[]|e] w3]
  end; cbn in *; [auto | discriminate Hret].
Qed.

Lemma deploy_returns_whatever_enable_does_witness :
  let run :=
    Collection.deploy Scenario.scripts (Scenario.goerli (Scenario.enable_fails "0xABC"))
      (Scenario.sym_args "Name" (Some "hash")) Scenario.empty_world in
  fst run = Returned ("/repo/collection.SYM.0xABC.goerli.json", "0xABC")
  /\ enable_calls (events (snd run)) = 1.
Proof.
  cbv zeta.
  exact (deploy_returns_whatever_enable_does Scenario.scripts
           (Scenario.goerli (Scenario.enable_fails "0xABC"))
           (Scenario.sym_args "Name" (Some "hash")) Scenario.empty_world
           Scenario.a_paymaster "0xForwarder" "0xABC" _ eq_refl).
Defined.

(** C7, on the code: once the contract is created, [deploy] sleeps at most
    once, for one second (after a failed attempt with [c = 1]); the sleeps of
    two, three and four seconds never happen, whatever the provider
    answers. *)
Theorem deploy_sleeps_at_most_once
    dirname hre args w paymaster forwarder target w1 :
  Collection.create dirname hre args w = (Returned (paymaster, forwarder, target), w1) ->
  let run := Collection.deploy dirname hre args w in
  sleeps (events (snd run)) = sleeps (events w1)
  \/ sleeps (events (snd run)) = sleeps (events w1) ++ [1000%Z].
Proof.
  intros Hcreate. cbv zeta.
  unfold Collection.deploy, Collection.deploy_with, bind. rewrite Hcreate.
  unfold Collection.record_and_enable, bind. cbn [writeFileSync].
  match goal with
  | |- context [Collection.enable_loop hre 2 5 paymaster target ?w2] =>
      pose proof (enable_loop_sleeps hre paymaster target w2) as Hsl;
      destruct (Collection.enable_loop hre 2 5 paymaster target w2) as [[[]|e] w3]
  end; exact Hsl.
Qed.

Lemma deploy_sleeps_at_most_once_witness :
  let run :=
    Collection.deploy Scenario.scripts (Scenario.goerli (Scenario.enable_fails "0xABC"))
      (Scenario.sym_args "Name" (Some "hash")) Scenario.empty_world in
  sleeps (events (snd run)) = [] \/ sleeps (events (snd run)) = [1000%Z].
Proof.
  cbv zeta.
  exact (deploy_sleeps_at_most_once Scenario.scripts
           (Scenario.goerli (Scenario.enable_fails "0xABC"))
           (Scenario.sym_args "Name" (Some "hash")) Scenario.empty_world
           Scenario.a_paymaster "0xForwarder" "0xABC" _ eq_refl).
Defined.

Lemma paymaster_verify_keeps_fs hre address constructorArguments :
  keeps_fs (Paymaster.verify hre address constructorArguments).
Proof. unfold Paymaster.verify. frame. apply silent_keeps_fs. frame. Qed.

(** What the task [deploy-paymaster] leaves on disk once the paymaster is
    created. *)
Lemma deploy_paymaster_fs dirname hre doVerify info output w w1 :
  paymasterInfo hre !! network_name hre = Some info ->
  Paymaster.deploy hre (RELAY_HUB_ADDRESS info) (GSN_TRUSTED_FORWARDER_ADDRESS info) w
  = (Returned output, w1) ->
  fs w1 = fs w ->
  fs (snd (Paymaster.deploy_paymaster dirname hre doVerify w))
  = <[Paymaster.getPath dirname hre := Json.stringify (Paymaster.output_json output)]> (fs w).
Proof.
  intros Hinfo Hdeploy Hfs.
  unfold Paymaster.deploy_paymaster, Paymaster.network_info, bind.
  rewrite Hinfo. cbn [ret]. rewrite Hdeploy. cbn [writeFileSync].
  rewrite Hfs. destruct doVerify; [|reflexivity].
  unfold try_catch.
  match goal with
  | |- context [Paymaster.verify hre ?a ?c ?w2] =>
      pose proof (paymaster_verify_keeps_fs hre a c w2) as Hv;
      destruct (Paymaster.verify hre a c w2) as [[[]|e] w3]
  end; exact Hv.
Qed.

Lemma paymaster_deploy_keeps_fs hre relay forwarder :
  keeps_fs (Paymaster.deploy hre relay forwarder).
Proof. unfold Paymaster.deploy. frame. Qed.

(** The constructor arguments in the output of the paymaster's [deploy]
    are the two it was called with. *)
Lemma deploy_arguments hre relay forwarder w w1 output :
  Paymaster.deploy hre relay forwarder w = (Returned output, w1) ->
  Paymaster.out_constructorArguments output = (relay, forwarder).
Proof.
  unfold Paymaster.deploy.
  destruct (JsString.falsy relay); [discriminate|].
  destruct (JsString.falsy forwarder); [discriminate|].
  unfold bind, external.
  destruct (provider hre (events w) _); [discriminate|]. cbn [ret].
  destruct (provider hre _ _); [discriminate|].
  destruct (provider hre _ _); [discriminate|].
  intros H. injection H as <- _. reflexivity.
Qed.

(** [get] without an address on a record with a truthy address. *)
Lemma get_from_record dirname hre w text obj a :
  fs w !! Paymaster.getPath dirname hre = Some text ->
  Json.parse text = Some obj ->
  property obj "address" = Some a ->
  Json.falsy (Some a) = false ->
  Paymaster.get dirname hre None w = (Returned {| address := a |}, w).
Proof.
  intros Hfile Hparse Ha Hfalsy.
  unfold Paymaster.get, bind, existsSync, readFileSync, JSON_parse.
  cbn. rewrite Hfile. cbn. rewrite Hfile, Hparse. cbn.
  destruct obj; try discriminate Ha; cbn in *; rewrite Ha.
  repeat (cbn; try rewrite Hfalsy). reflexivity.
Qed.

(** C4: a record read back right after it was written at its key is the
    record that was written, for names that hold no ["/"] (the key is then
    a file of the directory above the scripts).  [load], the reader of the
    collection tasks, finds in the file written for [outputObj] the address
    and the constructor arguments in their order.  The file written for the
    output of the paymaster's [deploy] parses to the object with that
    address and the two constructor arguments in their order, and [get]
    gives the handle of that address.  So it is after the scripts
    themselves: the record [deploy] leaves for a created collection loads
    as the address and the arguments it was created with, and the file the
    task [deploy-paymaster] leaves parses to the address and the arguments
    of its [deploy]. *)
Theorem record_round_trip
    (dirname : string) (hre : HardhatRuntimeEnvironment) (w : world) :
  JsString.slash_free (network_name hre) = true ->
  (forall sym address name cap hash uri fwd,
      JsString.slash_free sym = true -> JsString.slash_free address = true ->
      let path := Collection.getPath dirname hre sym address in
      let record := Collection.outputObj address name sym cap hash uri fwd in
      let w' := snd (writeFileSync path (Json.stringify record) w) in
      bind (readFileSync path) JSON_parse w' = (Returned record, w')
      /\ Collection.load path w'
         = (Returned (Some (Json.JStr address),
                      Some (Json.JArr [Json.JStr name; Json.JStr sym; Json.JNum cap;
                                       Json.JStr hash; Json.JStr uri; Json.JStr fwd])),
            w'))
  /\ (forall output,
         let path := Paymaster.getPath dirname hre in
         let w' := snd (writeFileSync path
                          (Json.stringify (Paymaster.output_json output)) w) in
         bind (readFileSync path) JSON_parse w'
         = (Returned
              (Json.JObj
                 [("address", Json.JStr (Paymaster.out_address output));
                  ("constructorArguments",
                   Json.JArr
                     [Json.JStr (fst (Paymaster.out_constructorArguments output));
                      Json.JStr (snd (Paymaster.out_constructorArguments output))])]),
            w')
         /\ (JsString.falsy (Paymaster.out_address output) = false ->
             Paymaster.get dirname hre None w'
             = (Returned {| address := Json.JStr (Paymaster.out_address output) |}, w')))
  /\ (forall args paymaster forwarder target w1,
         Collection.create dirname hre args w
         = (Returned (paymaster, forwarder, target), w1) ->
         JsString.slash_free (Collection.collectionSymbol args) = true ->
         JsString.slash_free target = true ->
         let w' := snd (Collection.deploy dirname hre args w) in
         Collection.load
           (Collection.getPath dirname hre (Collection.collectionSymbol args) target) w'
         = (Returned
              (Some (Json.JStr target),
               Some (Json.JArr
                       [Json.JStr (Collection.collectionName args);
                        Json.JStr (Collection.collectionSymbol args);
                        Json.JNum (Collection.collectionSupplyCap args);
                        Json.JStr (default "" (Collection.metadataProofHash args));
                        Json.JStr (Collection.contractMetadataUri args);
                        Json.JStr forwarder])),
            w'))
  /\ (forall doVerify info output w1,
         paymasterInfo hre !! network_name hre = Some info ->
         Paymaster.deploy hre (RELAY_HUB_ADDRESS info) (GSN_TRUSTED_FORWARDER_ADDRESS info) w
         = (Returned output, w1) ->
         let w' := snd (Paymaster.deploy_paymaster dirname hre doVerify w) in
         bind (readFileSync (Paymaster.getPath dirname hre)) JSON_parse w'
         = (Returned
              (Json.JObj
                 [("address", Json.JStr (Paymaster.out_address output));
                  ("constructorArguments",
                   Json.JArr [Json.JStr (RELAY_HUB_ADDRESS info);
                              Json.JStr (GSN_TRUSTED_FORWARDER_ADDRESS info)])]),
            w')
         /\ (JsString.falsy (Paymaster.out_address output) = false ->
             Paymaster.get dirname hre None w'
             = (Returned {| address := Json.JStr (Paymaster.out_address output) |}, w'))).
Proof.
  intros _. split; [|split; [|split]].
  - intros sym address name cap hash uri fwd _ _ path record w'. split.
    + apply parse_after_write.
    + rewrite (load_of_record path record w');
        [reflexivity | apply lookup_after_write | discriminate].
  - intros output path w'. split.
    + exact (parse_after_write path (Paymaster.output_json output) w).
    + intros Ha.
      apply (get_from_record dirname hre w' (Json.stringify (Paymaster.output_json output))
               (Paymaster.output_json output));
        [apply lookup_after_write | apply parse_stringify | reflexivity | exact Ha].
  - intros args paymaster forwarder target w1 Hcreate _ _ w'.
    rewrite (load_of_record _ (Collection.record_of args forwarder target) w');
      [reflexivity | | discriminate].
    unfold w', Collection.deploy.
    rewrite (deploy_with_fs _ _ _ _ _ _ _ _ _ _ Hcreate). apply lookup_insert_eq.
  - intros doVerify info output w1 Hinfo Hdeploy w'.
    assert (Hfile : fs w' !! Paymaster.getPath dirname hre
                    = Some (Json.stringify (Paymaster.output_json output))).
    { unfold w'. rewrite (deploy_paymaster_fs dirname hre doVerify info output w w1 Hinfo Hdeploy).
      - apply lookup_insert_eq.
      - pose proof (paymaster_deploy_keeps_fs hre (RELAY_HUB_ADDRESS info)
                      (GSN_TRUSTED_FORWARDER_ADDRESS info) w) as Hk.
        now rewrite Hdeploy in Hk. }
    assert (Hargs : Paymaster.out_constructorArguments output
                    = (RELAY_HUB_ADDRESS info, GSN_TRUSTED_FORWARDER_ADDRESS info)).
    { exact (deploy_arguments hre _ _ w w1 output Hdeploy). }
    split.
    + unfold bind, readFileSync, JSON_parse. rewrite Hfile, parse_stringify.
      unfold Paymaster.output_json. rewrite Hargs. reflexivity.
    + intros Ha.
      apply (get_from_record dirname hre w' (Json.stringify (Paymaster.output_json output))
               (Paymaster.output_json output));
        [exact Hfile | apply parse_stringify | reflexivity | exact Ha].
Qed.

Lemma record_round_trip_witness :
  let hre := Scenario.goerli (Scenario.enable_fails "0xABC") in
  let w' := snd (Collection.deploy Scenario.scripts hre
                   (Scenario.sym_args "Name" (Some "hash")) Scenario.empty_world) in
  let hre2 := Scenario.goerli (Cases.helpful "0xPaymaster") in
  let w2 := snd (Paymaster.deploy_paymaster Scenario.scripts hre2 false
                   Scenario.empty_world) in
  Collection.load "/repo/collection.SYM.0xABC.goerli.json" w'
  = (Returned
       (Some (Json.JStr "0xABC"),
        Some (Json.JArr [Json.JStr "Name"; Json.JStr "SYM"; Json.JNum 1000;
                         Json.JStr "hash"; Json.JStr "uri"; Json.JStr "0xForwarder"])),
     w')
  /\ bind (readFileSync (Paymaster.getPath Scenario.scripts hre2)) JSON_parse w2
     = (Returned
          (Json.JObj
             [("address", Json.JStr "0xPaymaster");
              ("constructorArguments",
               Json.JArr [Json.JStr "0xHub"; Json.JStr "0xForwarder"])]),
        w2)
  /\ Paymaster.get Scenario.scripts hre2 None w2
     = (Returned {| address := Json.JStr "0xPaymaster" |}, w2).
Proof.
  cbv zeta. split.
  - exact (proj1 (proj2 (proj2
             (record_round_trip Scenario.scripts
                (Scenario.goerli (Scenario.enable_fails "0xABC")) Scenario.empty_world
                eq_refl)))
             (Scenario.sym_args "Name" (Some "hash"))
             Scenario.a_paymaster "0xForwarder" "0xABC" _ eq_refl eq_refl eq_refl).
  - destruct (proj2 (proj2 (proj2
               (record_round_trip Scenario.scripts
                  (Scenario.goerli (Cases.helpful "0xPaymaster")) Scenario.empty_world
                  eq_refl)))
               false
               {| RELAY_HUB_ADDRESS := "0xHub";
                  GSN_TRUSTED_FORWARDER_ADDRESS := "0xForwarder" |}
               {| Paymaster.out_address := "0xPaymaster";
                  Paymaster.out_constructorArguments := ("0xHub", "0xForwarder") |}
               _ eq_refl eq_refl) as [Hparse Hget].
    split; [exact Hparse | exact (Hget eq_refl)].
Defined.

(** A later deployment leaves the record of an earlier one as it is: the
    file at the key of any other symbol or address is not touched. *)
Lemma deploy_keeps_other_records
    dirname hre args w paymaster forwarder target w1 sym' a' :
  Collection.create dirname hre args w = (Returned (paymaster, forwarder, target), w1) ->
  JsString.slash_free (Collection.collectionSymbol args) = true ->
  JsString.slash_free sym' = true ->
  JsString.plain target = true -> JsString.plain a' = true ->
  JsString.plain (network_name hre) = true ->
  (sym', a') <> (Collection.collectionSymbol args, target) ->
  let w' := snd (Collection.deploy dirname hre args w) in
  fs w' !! Collection.getPath dirname hre sym' a' = fs w !! Collection.getPath dirname hre sym' a'
  /\ fs w' !! Paymaster.getPath dirname hre = fs w !! Paymaster.getPath dirname hre.
Proof.
  intros Hcreate Hs Hs' Ht Ha' Hn Hne w'. unfold w', Collection.deploy.
  rewrite (deploy_with_fs _ _ _ _ _ _ _ _ _ _ Hcreate). split.
  - apply lookup_insert_ne. intros E.
    apply collection_key_inj in E as (E1 & E2 & _); try assumption.
    apply Hne. now rewrite E1, E2.
  - apply lookup_insert_ne. intros E. symmetry in E.
    apply plain_parts in Ht as [St _], Hn as [Sn _].
    unfold Collection.getPath, Paymaster.getPath in E.
    apply join_parent_file_inj in E;
      [discriminate E | now apply paymaster_file_name | now apply collection_file_name].
Qed.

Lemma deploy_keeps_other_records_witness :
  let hre := Scenario.goerli (Scenario.enable_fails "0xABC") in
  let w := Scenario.paymaster_file "{}" in
  let w' := snd (Collection.deploy Scenario.scripts hre
                   (Scenario.sym_args "Name" (Some "hash")) w) in
  fs w' !! Collection.getPath Scenario.scripts hre "OLD" "0xAAA"
  = fs w !! Collection.getPath Scenario.scripts hre "OLD" "0xAAA"
  /\ fs w' !! Paymaster.getPath Scenario.scripts hre
     = fs w !! Paymaster.getPath Scenario.scripts hre.
Proof.
  cbv zeta.
  apply (deploy_keeps_other_records Scenario.scripts
           (Scenario.goerli (Scenario.enable_fails "0xABC"))
           (Scenario.sym_args "Name" (Some "hash")) (Scenario.paymaster_file "{}")
           Scenario.a_paymaster "0xForwarder" "0xABC" _ "OLD" "0xAAA" eq_refl);
    try reflexivity.
  discriminate.
Defined.

End Deployed.

(** * More of the scripts *)

(** ** Reading a run backwards *)

Section Inversion.

Import Js.

Lemma bind_returned {A B} (m : M A) (k : A -> M B) w b w' :
  bind m k w = (Returned b, w') ->
  exists a w1, m w = (Returned a, w1) /\ k a w1 = (Returned b, w').
Proof.
  unfold bind. destruct (m w) as [[a|e] w1]; [eauto | discriminate].
Qed.

Lemma external_returned hre c w v w' :
  external hre c w = (Returned v, w') ->
  provider hre (events w) c = Gives v /\ w' = record_event (Called c) w.
Proof.
  unfold external. destruct (provider hre (events w) c); intros H; inversion H; auto.
Qed.

Lemma get_silent dirname hre address : silent (Paymaster.get dirname hre address).
Proof. unfold Paymaster.get. frame. Qed.

End Inversion.

(** ** [get] and [verify] *)

Section GetAndVerify.

Import Js.

(** X2: [get] only reads.  Whatever its argument and whatever the files
    hold, it leaves the world as it was.  With a non-empty address it
    returns the handle of that address without looking at the record file;
    with the empty string it does what it does without an address. *)
Theorem get_reads_only (dirname : string) (hre : HardhatRuntimeEnvironment) (w : world) :
  (forall address, snd (Paymaster.get dirname hre address w) = w)
  /\ (forall a, JsString.falsy a = false ->
                Paymaster.get dirname hre (Some a) w
                = (Returned {| address := Json.JStr a |}, w))
  /\ Paymaster.get dirname hre (Some "") w = Paymaster.get dirname hre None w.
Proof.
  split; [|split].
  - intros address. apply get_silent.
  - intros a Ha. unfold Paymaster.get, bind. cbn. rewrite Ha. cbn. rewrite Ha. reflexivity.
  - reflexivity.
Qed.

Lemma get_reads_only_witness :
  Paymaster.get Scenario.scripts (Scenario.goerli Scenario.two_addresses) (Some "0xAAA")
    (Scenario.paymaster_file "{")
  = (Returned {| address := Json.JStr "0xAAA" |}, Scenario.paymaster_file "{").
Proof.
  apply (get_reads_only Scenario.scripts (Scenario.goerli Scenario.two_addresses)
           (Scenario.paymaster_file "{")).
  reflexivity.
Defined.

(** X3: the paymaster's [verify], given two truthy constructor arguments,
    sends one request, with the address and the array as it got them.  It
    returns when the service answers and when the service fails with a
    message that holds "Reason: Already Verified"; every other failure is
    thrown on as it is. *)
Theorem paymaster_verify_outcomes
    (hre : HardhatRuntimeEnvironment) (address : jsval) (items : list Json.value) (w : world) :
  Json.falsy (nth_error items 0) = false ->
  Json.falsy (nth_error items 1) = false ->
  let request := RunVerify address (Some (Json.JArr items)) in
  Paymaster.verify hre address (Some (Json.JArr items)) w
  = (match provider hre (events w) request with
     | Gives _ => Returned tt
     | Fails e =>
         if JsString.includes "Reason: Already Verified" (message e) then Returned tt
         else Thrown e
     end,
     record_event (Called request) w).
Proof.
  intros H0 H1 request. unfold Paymaster.verify, bind, try_catch, external.
  cbn [iterate ret]. rewrite H0, H1. fold request.
  destruct (provider hre (events w) request) as [e|v]; [|reflexivity].
  destruct (JsString.includes _ (message e)); reflexivity.
Qed.

Lemma paymaster_verify_outcomes_witness :
  Paymaster.verify (Scenario.goerli Cases.service_down) (Some (Json.JStr "0xABC"))
    (Some (Json.JArr [Json.JStr "0xHub"; Json.JStr "0xForwarder"])) Scenario.empty_world
  = (Thrown (error "ETIMEDOUT"),
     record_event
       (Called (RunVerify (Some (Json.JStr "0xABC"))
                  (Some (Json.JArr [Json.JStr "0xHub"; Json.JStr "0xForwarder"]))))
       Scenario.empty_world).
Proof.
  exact (paymaster_verify_outcomes (Scenario.goerli Cases.service_down)
           (Some (Json.JStr "0xABC")) [Json.JStr "0xHub"; Json.JStr "0xForwarder"]
           Scenario.empty_world eq_refl eq_refl).
Defined.

(** X4: [verify] asks the service nothing when an argument is missing.
    The paymaster's throws its own error for the first of the two
    constructor arguments that is falsy or absent; the collection's for the
    first falsy one of the address and the six constructor arguments, in the
    order of its guards; and both throw a [TypeError] when the constructor
    arguments are neither an array nor a string.  The world is as before in
    every case. *)
Theorem verify_fails_fast
    (hre : HardhatRuntimeEnvironment) (address : jsval) (items : list Json.value) (w : world) :
  (Json.falsy (nth_error items 0) || Json.falsy (nth_error items 1) = true ->
   Paymaster.verify hre address (Some (Json.JArr items)) w
   = (Thrown (error (if Json.falsy (nth_error items 0)
                     then "Relay hub address is required"
                     else "GSN trusted forwarder address is required")), w))
  /\ (Json.falsy address
      || Json.falsy (nth_error items 1) || Json.falsy (nth_error items 2)
      || Json.falsy (nth_error items 4) || Json.falsy (nth_error items 5)
      || Json.falsy (nth_error items 0) || Json.falsy (nth_error items 3) = true ->
      Collection.verify hre address (Some (Json.JArr items)) w
      = (Thrown
           (error
              (if Json.falsy address then "address is required"
               else if Json.falsy (nth_error items 1) then "collectionSymbol is required"
               else if Json.falsy (nth_error items 2) then "collectionSupplyCap is required"
               else if Json.falsy (nth_error items 4) then "contractMetadataUri is required"
               else if Json.falsy (nth_error items 5) then "forwarderAddress is required"
               else if Json.falsy (nth_error items 0) then "collectionName is required"
               else "metadataProofHash is required")), w))
  /\ (forall v,
         match v with Some (Json.JArr _) | Some (Json.JStr _) => False | _ => True end ->
         Paymaster.verify hre address v w
         = (Thrown (typeError "constructorArguments is not iterable"), w)
         /\ Collection.verify hre address v w
            = (Thrown (typeError "constructorArguments is not iterable"), w)).
Proof.
  split; [|split].
  - intros H. unfold Paymaster.verify, bind. cbn [iterate ret].
    destruct (Json.falsy (nth_error items 0)); [reflexivity|].
    destruct (Json.falsy (nth_error items 1)); [reflexivity | discriminate H].
  - intros H. unfold Collection.verify, bind. cbn [iterate ret].
    destruct (Json.falsy address); [reflexivity|].
    destruct (Json.falsy (nth_error items 1)); [reflexivity|].
    destruct (Json.falsy (nth_error items 2)); [reflexivity|].
    destruct (Json.falsy (nth_error items 4)); [reflexivity|].
    destruct (Json.falsy (nth_error items 5)); [reflexivity|].
    destruct (Json.falsy (nth_error items 0)); [reflexivity|].
    destruct (Json.falsy (nth_error items 3)); [reflexivity | discriminate H].
  - intros v Hv. destruct v as [[]|]; try contradiction; split; reflexivity.
Qed.

Lemma verify_fails_fast_witness :
  let hre := Scenario.goerli Cases.service_down in
  let items := [Json.JStr "Name"; Json.JStr "SYM"; Json.JNum 0; Json.JStr "hash"] in
  Collection.verify hre (Some (Json.JStr "0xABC")) (Some (Json.JArr items))
    Scenario.empty_world
  = (Thrown (error "collectionSupplyCap is required"), Scenario.empty_world)
  /\ Paymaster.verify hre (Some (Json.JStr "0xABC")) (Some (Json.JArr [Json.JStr "0xHub"]))
       Scenario.empty_world
     = (Thrown (error "GSN trusted forwarder address is required"), Scenario.empty_world)
  /\ Paymaster.verify hre (Some (Json.JStr "0xABC")) None Scenario.empty_world
     = (Thrown (typeError "constructorArguments is not iterable"), Scenario.empty_world).
Proof.
  cbv zeta. split; [|split].
  - apply (verify_fails_fast (Scenario.goerli Cases.service_down) (Some (Json.JStr "0xABC"))
             [Json.JStr "Name"; Json.JStr "SYM"; Json.JNum 0; Json.JStr "hash"]
             Scenario.empty_world).
    reflexivity.
  - apply (verify_fails_fast (Scenario.goerli Cases.service_down) (Some (Json.JStr "0xABC"))
             [Json.JStr "0xHub"] Scenario.empty_world).
    reflexivity.
  - apply (verify_fails_fast (Scenario.goerli Cases.service_down) (Some (Json.JStr "0xABC"))
             [] Scenario.empty_world).
    exact I.
Defined.

End GetAndVerify.

(** ** What a deployment sends, records and returns *)

Section Deployments.

Import Js.

(** X5: the paymaster's [deploy] returns what it deployed.  When it returns,
    it has sent three requests and no other (the factory, the creation with
    the relay hub and the forwarder as constructor arguments, the wait for
    the deployment); the address of its output is the chain's answer to the
    creation, the constructor arguments of its output are the two it was
    called with, and no file has changed. *)
Theorem paymaster_output_is_what_was_deployed
    (hre : HardhatRuntimeEnvironment) (relay forwarder : string) (w w1 : world)
    (output : Paymaster.Output) :
  Paymaster.deploy hre relay forwarder w = (Returned output, w1) ->
  let factory := Called (GetContractFactory "NovelPaymaster") in
  let creation := ContractDeploy "NovelPaymaster" [Json.JStr relay; Json.JStr forwarder] in
  events w1
  = events w ++ [factory; Called creation; Called (Deployed (Paymaster.out_address output))]
  /\ provider hre (events w ++ [factory]) creation = Gives (Paymaster.out_address output)
  /\ Paymaster.out_constructorArguments output = (relay, forwarder)
  /\ fs w1 = fs w.
Proof.
  intros H. cbv zeta. unfold Paymaster.deploy in H.
  destruct (JsString.falsy relay); [discriminate H|].
  destruct (JsString.falsy forwarder); [discriminate H|].
  apply bind_returned in H as (x & wa & Hf & H). apply external_returned in Hf as [_ ->].
  apply bind_returned in H as (a & wb & Hc & H). apply external_returned in Hc as [Hans ->].
  apply bind_returned in H as (y & wc & Hd & H). apply external_returned in Hd as [_ ->].
  injection H as <- <-. cbn. rewrite <- !app_assoc. auto.
Qed.

Lemma paymaster_output_is_what_was_deployed_witness :
  let run := Paymaster.deploy (Scenario.goerli (Cases.helpful "0xPaymaster"))
               "0xHub" "0xForwarder" Scenario.empty_world in
  events (snd run)
  = [Called (GetContractFactory "NovelPaymaster");
     Called (ContractDeploy "NovelPaymaster" [Json.JStr "0xHub"; Json.JStr "0xForwarder"]);
     Called (Deployed "0xPaymaster")]
  /\ fs (snd run) = ∅.
Proof.
  cbv zeta.
  pose proof (paymaster_output_is_what_was_deployed
                (Scenario.goerli (Cases.helpful "0xPaymaster")) "0xHub" "0xForwarder"
                Scenario.empty_world _ _ eq_refl) as (Hev & _ & _ & Hfs).
  split; [exact Hev | exact Hfs].
Defined.



(** What [deploy] returns, read backwards. *)
Lemma deploy_returned dirname hre args w path target w' :
  Collection.deploy dirname hre args w = (Returned (path, target), w') ->
  exists paymaster forwarder w1,
    Collection.create dirname hre args w = (Returned (paymaster, forwarder, target), w1)
    /\ path = Collection.getPath dirname hre (Collection.collectionSymbol args) target.
Proof.
  unfold Collection.deploy, Collection.deploy_with. intros H.
  apply bind_returned in H as ([[pm fwd] a] & w1 & Hcreate & H).
  unfold Collection.record_and_enable in H.
  apply bind_returned in H as (x & wa & _ & H).
  apply bind_returned in H as (y & wb & _ & H).
  injection H as <- <- _. eauto.
Qed.





End Deployments.

(** ** Verifying what was deployed *)

Section Replay.

Import Js.

(** The record [deploy] leaves, as [load] reads it. *)
Lemma load_deployed dirname hre args w paymaster forwarder target w1 w2 :
  Collection.create dirname hre args w = (Returned (paymaster, forwarder, target), w1) ->
  let path := Collection.getPath dirname hre (Collection.collectionSymbol args) target in
  fs w2 !! path = fs (snd (Collection.deploy dirname hre args w)) !! path ->
  Collection.load path w2
  = (Returned
       (Some (Json.JStr target),
        Some (Json.JArr
                [Json.JStr (Collection.collectionName args);
                 Json.JStr (Collection.collectionSymbol args);
                 Json.JNum (Collection.collectionSupplyCap args);
                 Json.JStr (default "" (Collection.metadataProofHash args));
                 Json.JStr (Collection.contractMetadataUri args);
                 Json.JStr forwarder])),
     w2).
Proof.
  intros Hcreate path Hsame.
  unfold Collection.deploy in Hsame.
  rewrite (deploy_with_fs _ _ _ _ _ _ _ _ _ _ Hcreate) in Hsame.
  fold path in Hsame. rewrite lookup_insert_eq in Hsame.
  rewrite (load_of_record path _ w2 Hsame) by discriminate. reflexivity.
Qed.

(** X8: verifying a deployed collection replays its deployment.  For a
    collection deployed with a non-empty name and proof hash, at a non-empty
    address with a non-empty forwarder, the task [verify-collection] on the
    record sends one request: the recorded address with the six constructor
    arguments of the deployment, in their order.  It returns when the
    service answers and throws the service's error otherwise. *)
Theorem verify_collection_replays_deployment
    dirname hre args w paymaster forwarder target w1 hash :
  Collection.create dirname hre args w = (Returned (paymaster, forwarder, target), w1) ->
  Collection.metadataProofHash args = Some hash ->
  JsString.falsy hash = false ->
  JsString.falsy (Collection.collectionName args) = false ->
  JsString.falsy target = false ->
  JsString.falsy forwarder = false ->
  let path := Collection.getPath dirname hre (Collection.collectionSymbol args) target in
  let request :=
    RunVerify (Some (Json.JStr target))
      (Some (Json.JArr [Json.JStr (Collection.collectionName args);
                        Json.JStr (Collection.collectionSymbol args);
                        Json.JNum (Collection.collectionSupplyCap args);
                        Json.JStr hash;
                        Json.JStr (Collection.contractMetadataUri args);
                        Json.JStr forwarder])) in
  forall hre2 w2,
    fs w2 !! path = fs (snd (Collection.deploy dirname hre args w)) !! path ->
    Collection.verify_collection hre2 path w2
    = (match provider hre2 (events w2) request with
       | Gives _ => Returned tt
       | Fails e => Thrown e
       end,
       record_event (Called request) w2).
Proof.
  intros Hcreate Hhash Hh Hname Htarget Hfwd path request hre2 w2 Hsame.
  destruct (create_guards _ _ _ _ _ _ Hcreate) as (Hsym & Hcap & Huri).
  unfold Collection.verify_collection, bind. unfold path in *.
  rewrite (load_deployed _ _ _ _ _ _ _ _ w2 Hcreate Hsame). rewrite Hhash. cbn [default fst snd].
  unfold Collection.verify, bind, external. cbn -[JsString.falsy Z.eqb].
  rewrite Htarget, Hsym, Hcap, Huri, Hfwd, Hname, Hh.
  unfold array_literal. cbn [map from_option id]. fold request.
  destruct (provider hre2 (events w2) request); reflexivity.
Qed.

Lemma verify_collection_replays_deployment_witness :
  let hre := Scenario.goerli Cases.service_down in
  let w' := snd (Collection.deploy Scenario.scripts hre
                   (Scenario.sym_args "Name" (Some "hash")) Scenario.empty_world) in
  let request :=
    RunVerify (Some (Json.JStr "0xABC"))
      (Some (Json.JArr [Json.JStr "Name"; Json.JStr "SYM"; Json.JNum 1000;
                        Json.JStr "hash"; Json.JStr "uri"; Json.JStr "0xForwarder"])) in
  Collection.verify_collection hre "/repo/collection.SYM.0xABC.goerli.json" w'
  = (Thrown (error "ETIMEDOUT"), record_event (Called request) w').
Proof.
  cbv zeta.
  exact (verify_collection_replays_deployment Scenario.scripts
           (Scenario.goerli Cases.service_down)
           (Scenario.sym_args "Name" (Some "hash")) Scenario.empty_world
           Scenario.a_paymaster "0xForwarder" "0xABC" _ "hash"
           eq_refl eq_refl eq_refl eq_refl eq_refl eq_refl
           (Scenario.goerli Cases.service_down) _ eq_refl).
Defined.

(** [verify] on constructor arguments with an empty proof hash throws in the
    world it was called in. *)
Lemma verify_without_hash hre address name sym cap uri forwarder w :
  exists msg,
    Collection.verify hre (Some address)
      (Some (Json.JArr [name; sym; cap; Json.JStr ""; uri; forwarder])) w
    = (Thrown (error msg), w).
Proof.
  unfold Collection.verify, bind. cbn [iterate ret nth_error].
  destruct (Json.falsy (Some address)); [eauto|].
  destruct (Json.falsy (Some sym)); [eauto|].
  destruct (Json.falsy (Some cap)); [eauto|].
  destruct (Json.falsy (Some uri)); [eauto|].
  destruct (Json.falsy (Some forwarder)); [eauto|].
  destruct (Json.falsy (Some name)); eauto.
Qed.

(** X9: the [verify] parameter of the task [deploy-collection] changes
    nothing.  The task deploys without a proof hash, so the verification it
    then attempts fails on its guards and the failure is caught: with the
    parameter and without it the task ends alike, in the same world, and the
    verification service is never asked. *)
Theorem deploy_collection_verify_changes_nothing
    (dirname : string) (hre : HardhatRuntimeEnvironment)
    (symbol : string) (cap : Z) (name uri : string) (w : world) :
  Collection.deploy_collection dirname hre symbol cap name uri true w
  = Collection.deploy_collection dirname hre symbol cap name uri false w.
Proof.
  unfold Collection.deploy_collection, bind.
  match goal with
  | |- context [Collection.deploy dirname hre ?a w] => set (args := a)
  end.
  destruct (Collection.deploy dirname hre args w) as [[[path target]|e] w'] eqn:Hdeploy;
    [|reflexivity].
  destruct (deploy_returned _ _ _ _ _ _ _ Hdeploy) as (pm & fwd & w1 & Hcreate & ->).
  cbn [fst].
  assert (Hsame : fs w' !! Collection.getPath dirname hre (Collection.collectionSymbol args) target
                  = fs (snd (Collection.deploy dirname hre args w))
                      !! Collection.getPath dirname hre (Collection.collectionSymbol args) target)
    by now rewrite Hdeploy.
  rewrite (load_deployed _ _ _ _ _ _ _ _ w' Hcreate Hsame).
  cbn [fst snd default Collection.metadataProofHash args]. unfold try_catch.
  destruct (verify_without_hash hre (Json.JStr target)
              (Json.JStr (Collection.collectionName args))
              (Json.JStr (Collection.collectionSymbol args))
              (Json.JNum (Collection.collectionSupplyCap args))
              (Json.JStr (Collection.contractMetadataUri args)) (Json.JStr fwd) w')
    as [msg Hthrown].
  unfold args in *. cbn in Hthrown |- *. rewrite Hthrown. reflexivity.
Qed.

End Replay.

(** ** The paymaster a deployment depends on *)

Section Dependencies.

Import Js.


(** [get] without an address when no record is there. *)
Lemma get_without_record dirname hre w :
  fs w !! Paymaster.getPath dirname hre = None ->
  Paymaster.get dirname hre None w = (Thrown Paymaster.not_found, w).
Proof.
  intros Hfile. unfold Paymaster.get, bind, existsSync. cbn. rewrite Hfile. reflexivity.
Qed.


(** X11: a collection cannot be deployed before a paymaster.  Called
    without a paymaster handle, with its required parameters, where no
    paymaster record is at the key of the network, [deploy] throws the
    not-found error of [get] in the world it was called in: nothing was
    asked of the chain and nothing was written. *)
Theorem deploy_needs_a_paymaster dirname hre args w :
  Collection.paymaster args = None ->
  JsString.falsy (Collection.collectionSymbol args) = false ->
  Z.eqb (Collection.collectionSupplyCap args) 0 = false ->
  JsString.falsy (Collection.contractMetadataUri args) = false ->
  fs w !! Paymaster.getPath dirname hre = None ->
  Collection.deploy dirname hre args w = (Thrown Paymaster.not_found, w).
Proof.
  intros Hpm Hsym Hcap Huri Hfile.
  unfold Collection.deploy, Collection.deploy_with, Collection.create.
  rewrite Hsym, Hcap, Huri, Hpm. unfold bind at 1 2 3.
  rewrite (get_without_record _ _ _ Hfile). reflexivity.
Qed.

Lemma deploy_needs_a_paymaster_witness :
  Collection.deploy Scenario.scripts (Scenario.goerli (Cases.helpful "0xABC"))
    {| Collection.collectionName := "Name";
       Collection.collectionSymbol := "SYM";
       Collection.collectionSupplyCap := 1000;
       Collection.contractMetadataUri := "uri";
       Collection.metadataProofHash := None;
       Collection.paymaster := None;
       Collection.forwarderAddress := None |} Scenario.empty_world
  = (Thrown Paymaster.not_found, Scenario.empty_world).
Proof.
  apply deploy_needs_a_paymaster; reflexivity.
Defined.





(** X14: the task [enable-paymaster] tries once.  After it has asked for the
    signers, it throws the not-found error when the network has no paymaster
    record; on a record with a truthy address it sends one [enableContract]
    for that address and the given contract, returns when the chain answers
    and throws the chain's error otherwise, with no retry and no sleep.  It
    never writes a file. *)
Theorem enable_paymaster_tries_once
    (dirname : string) (hre : HardhatRuntimeEnvironment) (target : string) (w : world)
    (owner : string) :
  provider hre (events w) GetSigners = Gives owner ->
  let w1 := record_event (Called GetSigners) w in
  (fs w !! Paymaster.getPath dirname hre = None ->
   Tasks.enable_paymaster dirname hre target w = (Thrown Paymaster.not_found, w1))
  /\ (forall text obj a,
         fs w !! Paymaster.getPath dirname hre = Some text ->
         Json.parse text = Some obj ->
         property obj "address" = Some a ->
         Json.falsy (Some a) = false ->
         let request := EnableContract a target in
         Tasks.enable_paymaster dirname hre target w
         = (match provider hre (events w1) request with
            | Gives _ => Returned tt
            | Fails e => Thrown e
            end,
            record_event (Called request) w1))
  /\ fs (snd (Tasks.enable_paymaster dirname hre target w)) = fs w.
Proof.
  intros Hsigners w1. repeat apply conj.
  - intros Hfile. unfold Tasks.enable_paymaster, bind, external. rewrite Hsigners.
    fold w1. rewrite (get_without_record dirname hre w1 Hfile). reflexivity.
  - intros text obj a Hfile Hparse Ha Hfalsy request.
    unfold Tasks.enable_paymaster, bind, external. rewrite Hsigners. fold w1.
    rewrite (get_from_record dirname hre w1 text obj a Hfile Hparse Ha Hfalsy).
    cbn [connect address]. fold request.
    destruct (provider hre (events w1) request); reflexivity.
  - assert (Hk : keeps_fs (Tasks.enable_paymaster dirname hre target)).
    { unfold Tasks.enable_paymaster.
      apply keeps_fs_bind; [apply keeps_fs_external | intros signer].
      apply keeps_fs_bind; [apply get_keeps_fs | intros found]. frame. }
    apply Hk.
Qed.

Lemma enable_paymaster_tries_once_witness :
  let hre := Scenario.goerli (Scenario.enable_fails "0xABC") in
  let w1 := record_event (Called GetSigners) Cases.with_paymaster in
  Tasks.enable_paymaster Scenario.scripts hre "0xABC" Cases.with_paymaster
  = (Thrown (error "network timeout"),
     record_event (Called (EnableContract (Json.JStr "0xPaymaster") "0xABC")) w1).
Proof.
  cbv zeta.
  apply (proj1 (proj2 (enable_paymaster_tries_once Scenario.scripts
                         (Scenario.goerli (Scenario.enable_fails "0xABC")) "0xABC"
                         Cases.with_paymaster "" eq_refl)))
    with (text := Json.stringify
                    (Paymaster.output_json
                       {| Paymaster.out_address := "0xPaymaster";
                          Paymaster.out_constructorArguments := ("0xHub", "0xForwarder") |}))
         (obj := Paymaster.output_json
                   {| Paymaster.out_address := "0xPaymaster";
                      Paymaster.out_constructorArguments := ("0xHub", "0xForwarder") |});
    vm_compute; reflexivity.
Defined.

End Dependencies.

(** ** The task [deploy-collection] *)

Section DeployCollectionTask.

Import Js.

Lemma span_digits_stop (ds rest : list ascii) :
  Forall (fun c => Json.is_digit c = true) ds ->
  match rest with [] => true | c :: _ => negb (Json.is_digit c) end = true ->
  Json.span_digits (ds ++ rest) = (ds, rest).
Proof.
  intros Hds Hrest. induction Hds as [|c ds Hc _ IH]; simpl.
  - destruct rest as [|c rest]; [reflexivity|].
    apply negb_true_iff in Hrest. simpl. rewrite Hrest. reflexivity.
  - rewrite Hc, IH. reflexivity.
Qed.

Lemma ends_integer_stop (rest : list ascii) :
  JsNumber.ends_integer rest = true ->
  match rest with [] => true | c :: _ => negb (Json.is_digit c) end = true.
Proof.
  destruct rest as [|c rest]; [reflexivity|]. unfold JsNumber.ends_integer. intros H.
  now apply andb_prop in H.
Qed.

Lemma of_uint_pos (p : positive) : Z.of_uint (Pos.to_uint p) = Zpos p.
Proof. unfold Z.of_uint. now rewrite DecimalPos.Unsigned.of_to. Qed.

Lemma parse_magnitude_nonzero (d : ascii) (r : list ascii) :
  Json.ch "0" d = false ->
  JsNumber.parse_magnitude (d :: r)
  = match fst (Json.span_digits (d :: r)) with
    | [] => None
    | ds => Z.of_uint <$> Json.digits_value ds
    end.
Proof. intros Hd. unfold JsNumber.parse_magnitude. destruct r; rewrite ?Hd; reflexivity. Qed.

Lemma parse_magnitude_pos (p : positive) (rest : list ascii) :
  JsNumber.ends_integer rest = true ->
  JsNumber.parse_magnitude (Json.chars (NilEmpty.string_of_uint (Pos.to_uint p)) ++ rest)
  = Some (Zpos p).
Proof.
  intros Hrest.
  pose proof (span_digits_stop _ rest (uint_digits (Pos.to_uint p))
                (ends_integer_stop rest Hrest)) as Hspan.
  pose proof (digits_value_uint (Pos.to_uint p)) as Hval.
  destruct (to_uint_head p) as (d & more & Hd & Hd0).
  rewrite Hd in *.
  change ((d :: more) ++ rest) with (d :: (more ++ rest)) in *.
  rewrite (parse_magnitude_nonzero d _ Hd0), Hspan. cbn [fst].
  rewrite Hval. cbn. now rewrite of_uint_pos.
Qed.

Lemma parse_magnitude_zero (rest : list ascii) :
  JsNumber.ends_integer rest = true ->
  JsNumber.parse_magnitude ("0"%char :: rest) = Some 0%Z.
Proof.
  intros Hrest. destruct rest as [|c rest]; [reflexivity|].
  unfold JsNumber.ends_integer in Hrest. apply andb_prop in Hrest as [Hd Hx].
  apply negb_true_iff in Hd, Hx.
  unfold JsNumber.parse_magnitude. rewrite Hx, andb_false_r.
  cbn [Json.span_digits]. rewrite Hd. reflexivity.
Qed.

Lemma digit_starts_magnitude (c : ascii) :
  Json.is_digit c = true ->
  JsNumber.is_space c = false /\ Json.ch "-" c = false /\ Json.ch "+" c = false.
Proof. each_char c; intros H; try (repeat split; reflexivity); discriminate H. Qed.

(** [parseInt] of a printed integer, whatever follows it. *)
Lemma parseInt_number_to_string (n : Z) (rest : list ascii) :
  JsNumber.ends_integer rest = true ->
  JsNumber.parseInt (string_of_list_ascii (Json.number_to_string n ++ rest)) = Some n.
Proof.
  intros Hrest. unfold JsNumber.parseInt, Json.chars.
  rewrite list_ascii_of_string_of_list_ascii. unfold Json.number_to_string.
  destruct n as [|p|p]; simpl Z.to_int; simpl NilZero.string_of_int.
  - change (Json.chars "0" ++ rest) with ("0"%char :: rest).
    cbn [JsNumber.trim_start]. change (JsNumber.is_space "0") with false. cbv iota.
    change (Json.ch "-" "0") with false. change (Json.ch "+" "0") with false. cbv iota.
    now apply parse_magnitude_zero.
  - rewrite string_of_pos.
    pose proof (parse_magnitude_pos p rest Hrest) as Hp.
    pose proof (uint_digits (Pos.to_uint p)) as Hds.
    destruct (to_uint_head p) as (d & more & Hd & _).
    fold (Json.chars (NilEmpty.string_of_uint (Pos.to_uint p))).
    rewrite Hd in *. inversion Hds as [|? ? Hc _]; subst.
    change ((d :: more) ++ rest) with (d :: (more ++ rest)) in *.
    destruct (digit_starts_magnitude d Hc) as (Hs & Hm & Hpl).
    cbn [JsNumber.trim_start]. rewrite Hs, Hm, Hpl. exact Hp.
  - rewrite string_of_pos.
    change (Json.chars (String "-" (NilEmpty.string_of_uint (Pos.to_uint p))) ++ rest)
      with ("-"%char :: (Json.chars (NilEmpty.string_of_uint (Pos.to_uint p)) ++ rest)).
    cbn [JsNumber.trim_start]. change (JsNumber.is_space "-") with false. cbv iota.
    change (Json.ch "-" "-") with true. cbv iota.
    rewrite (parse_magnitude_pos p rest Hrest). reflexivity.
Qed.

(** A text [parseInt] reads a number from is not empty. *)
Lemma parseInt_truthy (s : string) (n : Z) :
  JsNumber.parseInt s = Some n -> JsString.falsy s = false.
Proof. destruct s; [discriminate | reflexivity]. Qed.

(** The guards of the task once they pass. *)
Lemma action_with_cap dirname hre symbol supplycap name uri verify n :
  JsString.falsy symbol = false -> JsNumber.parseInt supplycap = Some n ->
  JsString.falsy name = false -> JsString.falsy uri = false ->
  Tasks.deploy_collection_action dirname hre symbol supplycap name uri verify
  = Collection.deploy_collection dirname hre symbol n name uri
      (negb (Json.falsy (Json.JStr <$> verify))).
Proof.
  intros Hsym Hcap Hname Huri. unfold Tasks.deploy_collection_action.
  rewrite Hsym, (parseInt_truthy _ _ Hcap), Hcap, Hname, Huri. reflexivity.
Qed.

(** X15: the task [deploy-collection] reads the supply cap as the integer
    its text starts with.  With a symbol, a name and a URI, a [supplycap]
    that is the decimal text of a safe integer [n], alone or followed by
    text that does not go on with a digit or an [x], runs the deployment
    with the supply cap [n]: what follows the digits is dropped without a
    word. *)
Theorem deploy_collection_reads_leading_integer
    (dirname : string) (hre : HardhatRuntimeEnvironment)
    (symbol name uri : string) (verify : option string) (n : Z) (rest : list ascii) :
  JsString.falsy symbol = false ->
  JsString.falsy name = false ->
  JsString.falsy uri = false ->
  (Z.abs n <= JsNumber.MAX_SAFE_INTEGER)%Z ->
  JsNumber.ends_integer rest = true ->
  Tasks.deploy_collection_action dirname hre symbol
    (string_of_list_ascii (Json.number_to_string n ++ rest)) name uri verify
  = Collection.deploy_collection dirname hre symbol n name uri
      (negb (Json.falsy (Json.JStr <$> verify))).
Proof.
  intros Hsym Hname Huri _ Hrest.
  apply action_with_cap; try assumption.
  now apply parseInt_number_to_string.
Qed.

Lemma deploy_collection_reads_leading_integer_witness :
  Tasks.deploy_collection_action Scenario.scripts (Scenario.goerli (Cases.helpful "0xABC"))
    "SYM" "1000.75 tokens" "Name" "uri" None
  = Collection.deploy_collection Scenario.scripts (Scenario.goerli (Cases.helpful "0xABC"))
      "SYM" 1000 "Name" "uri" false.
Proof.
  apply (deploy_collection_reads_leading_integer Scenario.scripts
           (Scenario.goerli (Cases.helpful "0xABC")) "SYM" "Name" "uri" None 1000
           (Json.chars ".75 tokens")); try reflexivity.
  unfold JsNumber.MAX_SAFE_INTEGER. lia.
Defined.

(** X16: the task [deploy-collection] fails fast, in the order symbol,
    supply cap, name, URI, in the world it was called in: an empty symbol,
    then a [supplycap] that [parseInt] reads no number from, then an empty
    name, then an empty URI.  A [supplycap] read as [0] passes these guards
    and is refused by [deploy], with the message of [deploy]. *)
Theorem deploy_collection_action_fails_fast
    (dirname : string) (hre : HardhatRuntimeEnvironment)
    (symbol supplycap name uri : string) (verify : option string) (w : world) :
  let run := Tasks.deploy_collection_action dirname hre symbol supplycap name uri verify w in
  (JsString.falsy symbol = true -> run = (Thrown (error "symbol is required"), w))
  /\ (JsString.falsy symbol = false -> JsNumber.parseInt supplycap = None ->
      run = (Thrown (error "supplycap is required"), w))
  /\ (forall n,
         JsString.falsy symbol = false -> JsNumber.parseInt supplycap = Some n ->
         JsString.falsy name = true ->
         run = (Thrown (error "name is required"), w))
  /\ (forall n,
         JsString.falsy symbol = false -> JsNumber.parseInt supplycap = Some n ->
         JsString.falsy name = false -> JsString.falsy uri = true ->
         run = (Thrown (error "uri is required"), w))
  /\ (JsString.falsy symbol = false -> JsNumber.parseInt supplycap = Some 0%Z ->
      JsString.falsy name = false -> JsString.falsy uri = false ->
      run = (Thrown (error "collectionSupplyCap is required"), w)).
Proof.
  cbv zeta. unfold Tasks.deploy_collection_action.
  split; [|split; [|split; [|split]]].
  - intros ->. reflexivity.
  - intros -> ->. cbn [JsNumber.isNaN]. rewrite orb_true_r. reflexivity.
  - intros n -> Hcap ->. rewrite (parseInt_truthy _ _ Hcap), Hcap. reflexivity.
  - intros n -> Hcap -> ->. rewrite (parseInt_truthy _ _ Hcap), Hcap. reflexivity.
  - intros Hsym Hcap -> ->. rewrite Hsym, (parseInt_truthy _ _ Hcap), Hcap.
    cbn [orb JsNumber.isNaN].
    unfold Collection.deploy_collection, Collection.deploy, Collection.deploy_with,
      Collection.create, bind.
    cbn. rewrite Hsym. reflexivity.
Qed.

Lemma deploy_collection_action_fails_fast_witness :
  let hre := Scenario.goerli (Cases.helpful "0xABC") in
  Tasks.deploy_collection_action Scenario.scripts hre "SYM" "ten" "Name" "uri" None
    Cases.with_paymaster
  = (Thrown (error "supplycap is required"), Cases.with_paymaster)
  /\ Tasks.deploy_collection_action Scenario.scripts hre "SYM" "0" "Name" "uri" None
       Cases.with_paymaster
     = (Thrown (error "collectionSupplyCap is required"), Cases.with_paymaster).
Proof.
  cbv zeta. split.
  - apply (deploy_collection_action_fails_fast Scenario.scripts
             (Scenario.goerli (Cases.helpful "0xABC")) "SYM" "ten" "Name" "uri" None
             Cases.with_paymaster); reflexivity.
  - apply (deploy_collection_action_fails_fast Scenario.scripts
             (Scenario.goerli (Cases.helpful "0xABC")) "SYM" "0" "Name" "uri" None
             Cases.with_paymaster); reflexivity.
Defined.

End DeployCollectionTask.

(** ** Records of other deployments, and where records are looked for *)

Section OtherRecords.

Import Js.

(** The files after the task [deploy-paymaster]: the former ones, with or
    without a new text at the paymaster's key. *)
Lemma deploy_paymaster_fs_cases dirname hre doVerify w :
  let w' := snd (Paymaster.deploy_paymaster dirname hre doVerify w) in
  fs w' = fs w \/ exists text, fs w' = <[Paymaster.getPath dirname hre := text]> (fs w).
Proof.
  cbv zeta.
  destruct (paymasterInfo hre !! network_name hre) as [info|] eqn:Hinfo.
  - pose proof (paymaster_deploy_keeps_fs hre (RELAY_HUB_ADDRESS info)
                  (GSN_TRUSTED_FORWARDER_ADDRESS info) w) as Hk.
    destruct (Paymaster.deploy hre (RELAY_HUB_ADDRESS info)
                (GSN_TRUSTED_FORWARDER_ADDRESS info) w) as [[output|e] w1] eqn:Hdeploy.
    + right. eexists.
      exact (deploy_paymaster_fs dirname hre doVerify info output w w1 Hinfo Hdeploy Hk).
    + left. unfold Paymaster.deploy_paymaster, Paymaster.network_info, bind.
      rewrite Hinfo. cbn [ret]. rewrite Hdeploy. exact Hk.
  - left. unfold Paymaster.deploy_paymaster, Paymaster.network_info, bind.
    rewrite Hinfo. reflexivity.
Qed.

(** The key of a paymaster's record tells the network. *)
Lemma paymaster_key_inj (dirname : string) (hre hre' : HardhatRuntimeEnvironment) :
  JsString.slash_free (network_name hre) = true ->
  JsString.slash_free (network_name hre') = true ->
  Paymaster.getPath dirname hre = Paymaster.getPath dirname hre' ->
  network_name hre = network_name hre'.
Proof.
  intros Hn Hn' H. unfold Paymaster.getPath in H.
  apply join_parent_file_inj in H; [|now apply paymaster_file_name..].
  apply string_app_inv_head in H. now apply string_app_inv_tail in H.
Qed.

(** X17: the task [deploy-paymaster] touches one file.  Whatever the chain
    answers and whether it verifies or not, the record of every collection,
    on any network, and the paymaster's record of every other network are
    after the task what they were before it (names without ["/"]). *)
Theorem deploy_paymaster_keeps_other_records
    (dirname : string) (hre : HardhatRuntimeEnvironment) (doVerify : bool) (w : world) :
  JsString.slash_free (network_name hre) = true ->
  let w' := snd (Paymaster.deploy_paymaster dirname hre doVerify w) in
  (forall hre' sym a,
      JsString.slash_free sym = true -> JsString.slash_free a = true ->
      JsString.slash_free (network_name hre') = true ->
      fs w' !! Collection.getPath dirname hre' sym a
      = fs w !! Collection.getPath dirname hre' sym a)
  /\ (forall hre',
         JsString.slash_free (network_name hre') = true ->
         network_name hre' <> network_name hre ->
         fs w' !! Paymaster.getPath dirname hre' = fs w !! Paymaster.getPath dirname hre').
Proof.
  intros Hn w'. unfold w'.
  destruct (deploy_paymaster_fs_cases dirname hre doVerify w) as [E | [text E]];
    rewrite E; split; intros; try reflexivity.
  - apply lookup_insert_ne. intros K.
    unfold Collection.getPath, Paymaster.getPath in K.
    apply join_parent_file_inj in K;
      [discriminate K | now apply paymaster_file_name | now apply collection_file_name].
  - apply lookup_insert_ne. intros K.
    apply paymaster_key_inj in K; [congruence | assumption..].
Qed.

Lemma deploy_paymaster_keeps_other_records_witness :
  let hre := Scenario.goerli (Cases.helpful "0xPaymaster") in
  let w' := snd (Paymaster.deploy_paymaster Scenario.scripts hre true Scenario.empty_world) in
  fs w' !! Collection.getPath Scenario.scripts hre "SYM" "0xABC"
  = fs Scenario.empty_world !! Collection.getPath Scenario.scripts hre "SYM" "0xABC".
Proof.
  cbv zeta.
  exact (proj1 (deploy_paymaster_keeps_other_records Scenario.scripts
                  (Scenario.goerli (Cases.helpful "0xPaymaster")) true
                  Scenario.empty_world eq_refl)
           (Scenario.goerli (Cases.helpful "0xPaymaster")) "SYM" "0xABC"
           eq_refl eq_refl eq_refl).
Defined.

Lemma join_absolute (first : string) (rest : list string) :
  JsString.startsWith "/" first = true ->
  JsString.startsWith "/" (Path.join (first :: rest)) = true.
Proof.
  intros H. destruct first as [|c f]; [discriminate H|].
  cbn [JsString.startsWith] in H.
  destruct (ascii_dec "/" c) as [<-|]; [|discriminate H].
  unfold Path.join. cbn [List.filter JsString.falsy negb].
  set (l := List.filter _ rest).
  assert (Hj : exists X, Path.unsplit (String "/" f :: l) = String "/" X)
    by (destruct l; simpl; eauto).
  destruct Hj as [X ->]. cbn [JsString.falsy]. unfold Path.normalize.
  cbn [JsString.falsy JsString.startsWith].
  destruct (ascii_dec "/" "/") as [_|K]; [|congruence].
  destruct (JsString.falsy (Path.normalizeString (String "/" X) (negb true)));
    [reflexivity|].
  destruct (Path.endsWithSlash (String "/" X)); simpl;
    destruct (ascii_dec "/" "/"); congruence.
Qed.

Lemma paymaster_key_absolute (dirname : string) (hre : HardhatRuntimeEnvironment) :
  JsString.startsWith "/" dirname = true ->
  JsString.startsWith "/" (Paymaster.getPath dirname hre) = true.
Proof. apply join_absolute. Qed.

(** X18: the task [verify-paymaster] hands an absolute path to [require].
    Without a [path] parameter, or with an empty one, the path is the
    paymaster's record of the network; a parameter that starts with ["/"] is
    taken as it is; any other is joined to the working directory.  With the
    script's directory and the working directory absolute, as Node gives
    them, the path is absolute in every case. *)
Theorem record_path_is_absolute
    (dirname cwd : string) (hre : HardhatRuntimeEnvironment) :
  JsString.startsWith "/" dirname = true ->
  JsString.startsWith "/" cwd = true ->
  Tasks.record_path dirname cwd hre None = Paymaster.getPath dirname hre
  /\ Tasks.record_path dirname cwd hre (Some "") = Paymaster.getPath dirname hre
  /\ (forall p, JsString.startsWith "/" p = true ->
                Tasks.record_path dirname cwd hre (Some p) = p)
  /\ (forall p, JsString.falsy p = false -> JsString.startsWith "/" p = false ->
                Tasks.record_path dirname cwd hre (Some p) = Path.join [cwd; p])
  /\ (forall path, JsString.startsWith "/" (Tasks.record_path dirname cwd hre path) = true).
Proof.
  intros Hd Hc. split; [|split; [|split; [|split]]].
  - reflexivity.
  - reflexivity.
  - intros p Hp. unfold Tasks.record_path. rewrite Hp.
    destruct p; [discriminate Hp | reflexivity].
  - intros p Hf Hp. unfold Tasks.record_path. rewrite Hf, Hp. reflexivity.
  - intros [p|]; unfold Tasks.record_path.
    + destruct (JsString.falsy p); [now apply paymaster_key_absolute|].
      destruct (JsString.startsWith "/" p) eqn:Hp; cbn [negb];
        [exact Hp | now apply join_absolute].
    + now apply paymaster_key_absolute.
Qed.

Lemma record_path_is_absolute_witness :
  Tasks.record_path Scenario.scripts "/home/user/project" (Scenario.goerli Scenario.two_addresses)
    (Some "../records/paymaster.json")
  = "/home/user/records/paymaster.json"
  /\ JsString.startsWith "/"
       (Tasks.record_path Scenario.scripts "/home/user/project"
          (Scenario.goerli Scenario.two_addresses) (Some "../records/paymaster.json"))
     = true.
Proof.
  split; [reflexivity|].
  apply (record_path_is_absolute Scenario.scripts "/home/user/project"
           (Scenario.goerli Scenario.two_addresses)); reflexivity.
Defined.

End OtherRecords.
